(** * BaseRenderLayer: cell geometry, glyph drawing and char-atlas refresh

    A shallow embedding of [src/renderer/BaseRenderLayer.ts] (xterm.js).

    - A JavaScript number that carries a measurement (font metrics, the
      device pixel ratio, the line height option, canvas sizes) is given by
      its exact value, a rational [Q]; arithmetic on such numbers rounds
      its exact result to the nearest IEEE 754 double ([double], with ties
      to even and gradual underflow).  NaN, the infinities and results
      beyond the largest double are outside the model.  [Math.ceil],
      [Math.floor] and [Math.round] are exact.  Cell indices, character
      codes, colour indices and the scaled geometry (always the result of
      a rounding function) are integers [Z], and arithmetic on them is
      exact.
    - The 2D context is an external object: a method that draws emits the
      list of calls it issues on [_ctx], in order.
    - [_charAtlas] is [option Image]; [None] stands for [null] and for the
      field before its first assignment.
    - [acquireCharAtlas] and [CHAR_ATLAS_CELL_SPACING] live in
      [./CharAtlas], outside this file: they are parameters of the
      development. *)

From Stdlib Require Import ZArith QArith Qround List String Bool Lia Lqa.
From Stdlib Require Import SpecFloat.
Import ListNotations.

Local Open Scope Z_scope.

(** ** JavaScript primitives *)

Definition Math_ceil (q : Q) : Z := Qceiling q.
Definition Math_floor (q : Q) : Z := Qfloor q.

(** [Math.round] rounds to the nearest integer, halves towards +infinity. *)
Definition Math_round (q : Q) : Z := Qfloor (q + (1 # 2))%Q.

(** *** Double precision

    A double is a multiple m * 2^e of a power of two with |m| < 2^53 and
    e >= -1074.  Scaled by 2^1074 the doubles are integers, and rounding
    to the nearest double is rounding to a multiple of 2^s, where s grows
    with the magnitude. *)

(** Rounding to the nearest integer, ties to the even one. *)
Definition rne (t : Q) : Z :=
  let f := Qfloor t in
  match Qcompare (t - inject_Z f) (1 # 2) with
  | Lt => f
  | Gt => f + 1
  | Eq => if Z.even f then f else f + 1
  end.

(** The spacing of the doubles around [t], counted in units of 2^-1074,
    is 2^s: s is 0 up to 2^53 units and grows by one with each binade. *)
Definition ulp_shift (t : Q) : Z := Z.max 0 (Z.log2 (Qfloor t) - 52).

(** [t], in units of 2^-1074 and not negative, rounded to a double. *)
Definition round_scaled (t : Q) : Z :=
  let s := ulp_shift t in
  rne (t / inject_Z (2 ^ s)) * 2 ^ s.

(** 1 / [tiny] is the smallest positive double. *)
Definition tiny : Z := 2 ^ 1074.

Definition double_abs (q : Q) : Q :=
  inject_Z (round_scaled (q * inject_Z tiny)) / inject_Z tiny.

(** The double nearest to [q]. *)
Definition double (q : Q) : Q :=
  if Qle_bool 0 q then double_abs q else - double_abs (- q).

(** The doubles that are not negative, in units of 2^-1074. *)
Definition grid (X : Z) : Prop :=
  exists m s, 0 <= m <= 2 ^ 53 /\ 0 <= s /\ X = m * 2 ^ s.

(** The operators [*], [+], [-] and [/] on numbers. *)
Definition js_mul (a b : Q) : Q := double (a * b).
Definition js_add (a b : Q) : Q := double (a + b).
Definition js_sub (a b : Q) : Q := double (a - b).
Definition js_div (a b : Q) : Q := double (a / b).

(** The binary64 format of the Standard Library's specification of IEEE
    754 arithmetic, against which [double] is checked below. *)
Definition binary64 (m e : Z) : spec_float :=
  binary_normalize 53 1024 m e false.

Definition b64_mul : spec_float -> spec_float -> spec_float := SFmul 53 1024.
Definition b64_add : spec_float -> spec_float -> spec_float := SFadd 53 1024.
Definition b64_sub : spec_float -> spec_float -> spec_float := SFsub 53 1024.
Definition b64_div : spec_float -> spec_float -> spec_float := SFdiv 53 1024.

(** The exact value of a finite binary64 number. *)
Definition Q_of_binary64 (f : spec_float) : option Q :=
  match f with
  | S754_zero _ => Some 0%Q
  | S754_finite s m e =>
      Some ((if s then - inject_Z (Zpos m) else inject_Z (Zpos m))
            * Qpower 2 e)%Q
  | _ => None
  end.

Definition same_number (f : spec_float) (q : Q) : bool :=
  match Q_of_binary64 f with
  | Some v => Qeq_bool v q
  | None => false
  end.

(** Assigning [v] to [canvas.width] or [canvas.height]: the value is
    converted to an [unsigned long] (modulo 2^32), and a result above
    2147483647 is replaced by the default of the attribute. *)
Definition canvas_dimension (default v : Z) : Z :=
  let u := v mod 2 ^ 32 in
  if u <=? 2147483647 then u else default.

(** [a[i]] on an array: [undefined] (here [None]) outside [0 .. length-1]. *)
Definition js_index {A : Type} (a : list A) (i : Z) : option A :=
  if i <? 0 then None else nth_error a (Z.to_nat i).

(** ** Data model *)

Definition Color := string.

Record IColorSet := mkColorSet {
  foreground : Color;
  background : Color;
  ansi : list Color
}.

Record ICharMeasure := mkCharMeasure {
  cm_width : Q;
  cm_height : Q
}.

Record ITerminalOptions := mkOptions {
  lineHeight : Q;
  fontSize : Q;
  fontFamily : string
}.

Record ITerminal := mkTerminal {
  charMeasure : ICharMeasure;
  options : ITerminalOptions
}.

(** The ambient [window] object. *)
Record Window := mkWindow {
  devicePixelRatio : Q
}.

(** [CharData], reduced to the two components this file reads
    ([CHAR_DATA_CHAR_INDEX] and [CHAR_DATA_WIDTH_INDEX]). *)
Record CharData := mkCharData {
  cd_char : string;
  cd_width : Z
}.

(** What [_charAtlas] can hold: [HTMLCanvasElement | ImageBitmap], each
    identified by a handle. *)
Inductive Image :=
| HTMLCanvasElement (handle : nat)
| ImageBitmap (handle : nat).

(** What [acquireCharAtlas] returns: a canvas, available at once, or a
    promise of a bitmap. *)
Inductive AcquireResult :=
| Immediate (canvas : nat)
| Pending (promise : nat).

(** The arguments of one [acquireCharAtlas] call. *)
Record AtlasKey := mkAtlasKey {
  key_terminal : ITerminal;
  key_colors : IColorSet;
  key_width : Z;
  key_height : Z
}.

(** The canvas element: the size of its bitmap, an [unsigned long] each,
    and the size its style gives it on the page, in CSS pixels. *)
Record Canvas := mkCanvas {
  cv_width : Z;
  cv_height : Z;
  style_width : Q;
  style_height : Q
}.

(** The fields of the layer object. *)
Record BaseRenderLayer := mkLayer {
  _canvas : Canvas;
  colors : IColorSet;
  scaledCharWidth : Z;
  scaledCharHeight : Z;
  scaledLineHeight : Z;
  scaledLineDrawY : Z;
  _charAtlas : option Image
}.

(** The layer together with what it shares with its environment: the
    [acquireCharAtlas] calls made so far, and the promises on which a
    completion callback [bitmap => this._charAtlas = bitmap] is
    registered. *)
Record World := mkWorld {
  this : BaseRenderLayer;
  atlasRequests : list AtlasKey;
  registered : list nat
}.

(** Calls on the [CanvasRenderingContext2D].  Rectangles built from cell
    indices alone have integer coordinates; those that involve the device
    pixel ratio are rational.  [ResetState] is not a call: it records
    that the canvas was given a new width or height, which clears the
    bitmap and resets the context to its default state. *)
Inductive CanvasCall :=
| Save
| Restore
| BeginPath
| Clip
| SetFont (px : Q) (family : string)
| SetTextBaseline (baseline : string)
| SetFillStyle (style : option Color)
| SetLineWidth (w : Q)
| Rect (x y w h : Z)
| ClearRect (x y w h : Z)
| FillRect (x y w h : Q)
| StrokeRect (x y w h : Q)
| FillText (text : string) (x y : Z)
| DrawImage (image : option Image) (sx sy sw sh dx dy dw dh : Z)
| ResetState.

Definition is_DrawImage (c : CanvasCall) : bool :=
  match c with DrawImage _ _ _ _ _ _ _ _ _ => true | _ => false end.

Definition is_FillText (c : CanvasCall) : bool :=
  match c with FillText _ _ _ => true | _ => false end.

Definition is_ClearRect (c : CanvasCall) : bool :=
  match c with ClearRect _ _ _ _ => true | _ => false end.

(** ** Effects: state, emitted canvas calls, exceptions *)

Inductive Exn := TypeError.

Inductive Completion (A : Type) :=
| Normal (a : A)
| Throw (e : Exn).
Arguments Normal {A} a.
Arguments Throw {A} e.

Record Outcome (A : Type) := mkOutcome {
  completion : Completion A;
  world : World;
  calls : list CanvasCall
}.
Arguments mkOutcome {A}.
Arguments completion {A}.
Arguments world {A}.
Arguments calls {A}.

Definition M (A : Type) : Type := World -> Outcome A.

Definition ret {A} (a : A) : M A :=
  fun w => mkOutcome (Normal a) w [].

Definition bind {A B} (m : M A) (k : A -> M B) : M B :=
  fun w =>
    match m w with
    | mkOutcome (Normal a) w1 calls1 =>
        match k a w1 with
        | mkOutcome c w2 calls2 => mkOutcome c w2 (calls1 ++ calls2)
        end
    | mkOutcome (Throw e) w1 calls1 => mkOutcome (Throw e) w1 calls1
    end.

Declare Scope js_scope.
Delimit Scope js_scope with js.
Notation "x <- m ;; k" := (bind m (fun x => k))
  (at level 61, m at next level, right associativity) : js_scope.
Notation "m ;; k" := (bind m (fun _ => k))
  (at level 61, right associativity) : js_scope.
Local Open Scope js_scope.

Definition get_this : M BaseRenderLayer :=
  fun w => mkOutcome (Normal (this w)) w [].

Definition modify_this (f : BaseRenderLayer -> BaseRenderLayer) : M unit :=
  fun w => mkOutcome (Normal tt)
             (mkWorld (f (this w)) (atlasRequests w) (registered w)) [].

(** A call on [_ctx]. *)
Definition ctx (c : CanvasCall) : M unit :=
  fun w => mkOutcome (Normal tt) w [c].

(** [_ctx.drawImage(image, ...)]: the canvas API rejects an [image] that
    is [null] with a [TypeError]; the call is recorded either way. *)
Definition ctx_drawImage (image : option Image)
    (sx sy sw sh dx dy dw dh : Z) : M unit :=
  fun w =>
    mkOutcome
      (match image with Some _ => Normal tt | None => Throw TypeError end)
      w [DrawImage image sx sy sw sh dx dy dw dh].

(** Field assignments. *)
Definition set_canvas (c : Canvas) (l : BaseRenderLayer) :=
  mkLayer c (colors l) (scaledCharWidth l) (scaledCharHeight l)
          (scaledLineHeight l) (scaledLineDrawY l) (_charAtlas l).
Definition set_scaledCharWidth (v : Z) (l : BaseRenderLayer) :=
  mkLayer (_canvas l) (colors l) v (scaledCharHeight l)
          (scaledLineHeight l) (scaledLineDrawY l) (_charAtlas l).
Definition set_scaledCharHeight (v : Z) (l : BaseRenderLayer) :=
  mkLayer (_canvas l) (colors l) (scaledCharWidth l) v
          (scaledLineHeight l) (scaledLineDrawY l) (_charAtlas l).
Definition set_scaledLineHeight (v : Z) (l : BaseRenderLayer) :=
  mkLayer (_canvas l) (colors l) (scaledCharWidth l) (scaledCharHeight l)
          v (scaledLineDrawY l) (_charAtlas l).
Definition set_scaledLineDrawY (v : Z) (l : BaseRenderLayer) :=
  mkLayer (_canvas l) (colors l) (scaledCharWidth l) (scaledCharHeight l)
          (scaledLineHeight l) v (_charAtlas l).
Definition set_charAtlas (v : option Image) (l : BaseRenderLayer) :=
  mkLayer (_canvas l) (colors l) (scaledCharWidth l) (scaledCharHeight l)
          (scaledLineHeight l) (scaledLineDrawY l) v.

(** [_canvas.width = v] and [_canvas.height = v]; each resets the
    context. *)
Definition assign_canvas_width (v : Z) : M unit :=
  modify_this (fun l =>
    set_canvas (mkCanvas (canvas_dimension 300 v) (cv_height (_canvas l))
                         (style_width (_canvas l))
                         (style_height (_canvas l))) l) ;;
  ctx ResetState.

Definition assign_canvas_height (v : Z) : M unit :=
  modify_this (fun l =>
    set_canvas (mkCanvas (cv_width (_canvas l)) (canvas_dimension 150 v)
                         (style_width (_canvas l))
                         (style_height (_canvas l))) l) ;;
  ctx ResetState.

(** [_canvas.style.width = `${w}px`] and [_canvas.style.height]. *)
Definition assign_canvas_style (w h : Q) : M unit :=
  modify_this (fun l =>
    set_canvas (mkCanvas (cv_width (_canvas l)) (cv_height (_canvas l))
                         w h) l).

Definition INVERTED_DEFAULT_COLOR : Z := -1.

(** ** The methods of [BaseRenderLayer] *)

Section Methods.

(** [acquireCharAtlas(terminal, colors, width, height)].  Its first
    argument here is the list of the calls made before, on which the
    result of the module's cache may depend. *)
Variable acquireCharAtlas :
  list AtlasKey -> ITerminal -> IColorSet -> Z -> Z -> AcquireResult.

Variable CHAR_ATLAS_CELL_SPACING : Z.

Definition call_acquireCharAtlas (terminal : ITerminal) (cs : IColorSet)
    (w h : Z) : M AcquireResult :=
  fun wd =>
    mkOutcome
      (Normal (acquireCharAtlas (atlasRequests wd) terminal cs w h))
      (mkWorld (this wd)
               (atlasRequests wd ++ [mkAtlasKey terminal cs w h])
               (registered wd))
      [].

(** [result.then(bitmap => this._charAtlas = bitmap)]: the callback is
    registered on the promise and runs when the promise is fulfilled. *)
Definition promise_then (promise : nat) : M unit :=
  fun wd =>
    mkOutcome (Normal tt)
      (mkWorld (this wd) (atlasRequests wd) (registered wd ++ [promise])) [].

(** The promise [promise] is fulfilled with [bitmap]: every callback
    registered on it runs, each assigning [this._charAtlas = bitmap]. *)
Definition fulfil (promise bitmap : nat) : M unit :=
  fun wd =>
    if existsb (Nat.eqb promise) (registered wd)
    then mkOutcome (Normal tt)
           (mkWorld (set_charAtlas (Some (ImageBitmap bitmap)) (this wd))
                    (atlasRequests wd)
                    (filter (fun p => negb (Nat.eqb promise p))
                            (registered wd)))
           []
    else mkOutcome (Normal tt) wd [].

Definition onOptionsChanged (terminal : ITerminal) : M unit := ret tt.
Definition onBlur (terminal : ITerminal) : M unit := ret tt.
Definition onFocus (terminal : ITerminal) : M unit := ret tt.
Definition onCursorMove (terminal : ITerminal) : M unit := ret tt.
Definition onGridChanged (terminal : ITerminal) (startRow endRow : Z)
  : M unit := ret tt.
Definition onSelectionChanged (terminal : ITerminal) (start finish : Z * Z)
  : M unit := ret tt.

Definition _refreshCharAtlas (terminal : ITerminal) (colorSet : IColorSet)
  : M unit :=
  modify_this (set_charAtlas None) ;;
  l <- get_this ;;
  result <- call_acquireCharAtlas terminal (colors l)
              (scaledCharWidth l) (scaledCharHeight l) ;;
  match result with
  | Immediate canvas =>
      modify_this (set_charAtlas (Some (HTMLCanvasElement canvas)))
  | Pending promise => promise_then promise
  end.

Definition onThemeChanged (terminal : ITerminal) (colorSet : IColorSet)
  : M unit :=
  _refreshCharAtlas terminal colorSet.

Definition resize (window : Window) (terminal : ITerminal)
    (canvasWidth canvasHeight : Q) (charSizeChanged : bool) : M unit :=
  let dpr := devicePixelRatio window in
  modify_this (set_scaledCharWidth
                 (Math_ceil (js_mul (cm_width (charMeasure terminal)) dpr))) ;;
  modify_this (set_scaledCharHeight
                 (Math_ceil (js_mul (cm_height (charMeasure terminal)) dpr))) ;;
  modify_this (fun l =>
    set_scaledLineHeight
      (Math_floor (js_mul (inject_Z (scaledCharHeight l))
                          (lineHeight (options terminal)))) l) ;;
  modify_this (fun l =>
    set_scaledLineDrawY
      (if Qeq_bool (lineHeight (options terminal)) 1 then 0
       else Math_round
              (inject_Z (scaledLineHeight l - scaledCharHeight l) / 2)) l) ;;
  assign_canvas_width (Math_round (js_mul canvasWidth dpr)) ;;
  assign_canvas_height (Math_round (js_mul canvasHeight dpr)) ;;
  assign_canvas_style canvasWidth canvasHeight ;;
  if charSizeChanged
  then l <- get_this ;; _refreshCharAtlas terminal (colors l)
  else ret tt.

Definition fillCells (x y width height : Z) : M unit :=
  l <- get_this ;;
  ctx (FillRect (inject_Z (x * scaledCharWidth l))
                (inject_Z (y * scaledLineHeight l))
                (inject_Z (width * scaledCharWidth l))
                (inject_Z (height * scaledLineHeight l))).

(** [width] defaults to 1. *)
Definition fillBottomLineAtCells (window : Window) (x y : Z)
    (width : option Z) : M unit :=
  let width := match width with Some v => v | None => 1 end in
  let dpr := devicePixelRatio window in
  l <- get_this ;;
  ctx (FillRect (inject_Z (x * scaledCharWidth l))
                (js_sub (js_sub (inject_Z ((y + 1) * scaledLineHeight l)) dpr)
                        1)
                (inject_Z (width * scaledCharWidth l))
                dpr).

Definition fillLeftLineAtCell (window : Window) (x y : Z) : M unit :=
  l <- get_this ;;
  ctx (FillRect (inject_Z (x * scaledCharWidth l))
                (inject_Z (y * scaledLineHeight l))
                (devicePixelRatio window)
                (inject_Z (scaledLineHeight l))).

Definition strokeRectAtCell (window : Window) (x y width height : Z)
  : M unit :=
  let dpr := devicePixelRatio window in
  l <- get_this ;;
  ctx (SetLineWidth dpr) ;;
  ctx (StrokeRect (js_add (inject_Z (x * scaledCharWidth l)) (js_div dpr 2))
                  (js_add (inject_Z (y * scaledLineHeight l)) (js_div dpr 2))
                  (js_sub (inject_Z (width * scaledCharWidth l)) dpr)
                  (js_sub (inject_Z (height * scaledLineHeight l)) dpr)).

Definition clearAll : M unit :=
  l <- get_this ;;
  ctx (ClearRect 0 0 (cv_width (_canvas l)) (cv_height (_canvas l))).

Definition clearCells (x y width height : Z) : M unit :=
  l <- get_this ;;
  ctx (ClearRect (x * scaledCharWidth l) (y * scaledLineHeight l)
                 (width * scaledCharWidth l) (height * scaledLineHeight l)).

Definition fillCharTrueColor (window : Window) (terminal : ITerminal)
    (charData : CharData) (x y : Z) : M unit :=
  l <- get_this ;;
  ctx (SetFont (js_mul (fontSize (options terminal))
                       (devicePixelRatio window))
               (fontFamily (options terminal))) ;;
  ctx (SetTextBaseline "top") ;;
  ctx BeginPath ;;
  ctx (Rect (x * scaledCharWidth l)
            (y * scaledLineHeight l + scaledLineDrawY l)
            (cd_width charData * scaledCharWidth l)
            (scaledCharHeight l)) ;;
  ctx Clip ;;
  ctx (FillText (cd_char charData)
                (x * scaledCharWidth l) (y * scaledCharHeight l)).

Definition _drawUncachedChar (window : Window) (terminal : ITerminal)
    (char : string) (width fg x y : Z) : M unit :=
  l <- get_this ;;
  ctx Save ;;
  ctx (SetFont (js_mul (fontSize (options terminal))
                       (devicePixelRatio window))
               (fontFamily (options terminal))) ;;
  ctx (SetTextBaseline "top") ;;
  (if fg =? INVERTED_DEFAULT_COLOR
   then ctx (SetFillStyle (Some (background (colors l))))
   else if fg <? 256
   then ctx (SetFillStyle (js_index (ansi (colors l)) fg))
   else ctx (SetFillStyle (Some (foreground (colors l))))) ;;
  ctx BeginPath ;;
  ctx (Rect (x * scaledCharWidth l)
            (y * scaledLineHeight l + scaledLineDrawY l)
            (width * scaledCharWidth l)
            (scaledCharHeight l)) ;;
  ctx Clip ;;
  ctx (FillText char (x * scaledCharWidth l)
                (y * scaledLineHeight l + scaledLineDrawY l)) ;;
  ctx Restore.

(** The local [colorIndex] of [drawChar]. *)
Definition colorIndex (fg : Z) (bold : bool) : Z :=
  let colorIndex := 0 in
  if fg <? 256 then fg + 2
  else if bold then 1
  else colorIndex.

Definition drawChar (window : Window) (terminal : ITerminal)
    (char : string) (code width x y fg : Z) (bold : bool) : M unit :=
  (if width =? 2 then clearCells (x + 1) y 1 1 else ret tt) ;;
  let colorIndex := colorIndex fg bold in
  let isAscii := code <? 256 in
  let isBasicColor := (colorIndex >? 1) && (fg <? 16) in
  let isDefaultColor := fg >=? 256 in
  if isAscii && (isBasicColor || isDefaultColor)
  then
    l <- get_this ;;
    let charAtlasCellWidth := scaledCharWidth l + CHAR_ATLAS_CELL_SPACING in
    let charAtlasCellHeight := scaledCharHeight l + CHAR_ATLAS_CELL_SPACING in
    ctx_drawImage (_charAtlas l)
      (code * charAtlasCellWidth) (colorIndex * charAtlasCellHeight)
      (scaledCharWidth l) (scaledCharHeight l)
      (x * scaledCharWidth l)
      (y * scaledLineHeight l + scaledLineDrawY l)
      (scaledCharWidth l) (scaledCharHeight l)
  else _drawUncachedChar window terminal char width fg x y.

(** ** The layer as a state machine

    What can happen to a layer: a method is called on it, or a promise on
    which it waits is fulfilled. *)
Inductive Event :=
| EvOptionsChanged (terminal : ITerminal)
| EvBlur (terminal : ITerminal)
| EvFocus (terminal : ITerminal)
| EvCursorMove (terminal : ITerminal)
| EvGridChanged (terminal : ITerminal) (startRow endRow : Z)
| EvSelectionChanged (terminal : ITerminal) (start finish : Z * Z)
| EvThemeChanged (terminal : ITerminal) (colorSet : IColorSet)
| EvResize (window : Window) (terminal : ITerminal)
           (canvasWidth canvasHeight : Q) (charSizeChanged : bool)
| EvFillCells (x y width height : Z)
| EvFillBottomLineAtCells (window : Window) (x y : Z) (width : option Z)
| EvFillLeftLineAtCell (window : Window) (x y : Z)
| EvStrokeRectAtCell (window : Window) (x y width height : Z)
| EvClearAll
| EvClearCells (x y width height : Z)
| EvFillCharTrueColor (window : Window) (terminal : ITerminal)
                      (charData : CharData) (x y : Z)
| EvDrawChar (window : Window) (terminal : ITerminal) (char : string)
             (code width x y fg : Z) (bold : bool)
| EvFulfil (promise bitmap : nat).

Definition handle (ev : Event) : M unit :=
  match ev with
  | EvOptionsChanged t => onOptionsChanged t
  | EvBlur t => onBlur t
  | EvFocus t => onFocus t
  | EvCursorMove t => onCursorMove t
  | EvGridChanged t s e => onGridChanged t s e
  | EvSelectionChanged t s e => onSelectionChanged t s e
  | EvThemeChanged t cs => onThemeChanged t cs
  | EvResize win t cw ch csc => resize win t cw ch csc
  | EvFillCells x y w h => fillCells x y w h
  | EvFillBottomLineAtCells win x y w => fillBottomLineAtCells win x y w
  | EvFillLeftLineAtCell win x y => fillLeftLineAtCell win x y
  | EvStrokeRectAtCell win x y w h => strokeRectAtCell win x y w h
  | EvClearAll => clearAll
  | EvClearCells x y w h => clearCells x y w h
  | EvFillCharTrueColor win t cd x y => fillCharTrueColor win t cd x y
  | EvDrawChar win t c code w x y fg bold =>
      drawChar win t c code w x y fg bold
  | EvFulfil p b => fulfil p b
  end.

(** The world after a sequence of events.  An exception thrown by one
    method call ends that call only; the layer lives on. *)
Fixpoint run (evs : list Event) (wd : World) : World :=
  match evs with
  | [] => wd
  | ev :: rest => run rest (world (handle ev wd))
  end.

End Methods.

Arguments colorIndex fg bold : simpl never.

(** ** Vocabulary of the properties *)

(** The four values of the cell geometry. *)
Definition geometry (l : BaseRenderLayer) : Z * Z * Z * Z :=
  (scaledCharWidth l, scaledCharHeight l, scaledLineHeight l,
   scaledLineDrawY l).

(** The geometry invariant: a line is at least as tall as a glyph. *)
Definition line_fits (l : BaseRenderLayer) : Prop :=
  scaledCharHeight l <= scaledLineHeight l.

(** The measurements a terminal hands to [resize]: a font height and a
    device pixel ratio that are not negative, a line height of at least
    1. *)
Definition metrics_ok (window : Window) (terminal : ITerminal) : Prop :=
  (0 <= cm_height (charMeasure terminal))%Q /\
  (0 <= devicePixelRatio window)%Q /\
  (1 <= lineHeight (options terminal))%Q.

Definition resize_ok (ev : Event) : Prop :=
  match ev with
  | EvResize window terminal _ _ _ => metrics_ok window terminal
  | _ => True
  end.

Definition is_resize (ev : Event) : bool :=
  match ev with EvResize _ _ _ _ _ => true | _ => false end.

(** The path a [drawChar] call took, read off the calls it issued: the
    atlas path issues [drawImage], the direct path [fillText]. *)
Definition blits (cs : list CanvasCall) : Prop :=
  existsb is_DrawImage cs = true.

Definition draws_directly (cs : list CanvasCall) : Prop :=
  existsb is_FillText cs = true.

(** The calls of [_drawUncachedChar] for a given fill style. *)
Definition direct_draw_calls (window : Window) (terminal : ITerminal)
    (l : BaseRenderLayer) (style : option Color) (char : string)
    (width x y : Z) : list CanvasCall :=
  [ Save;
    SetFont (js_mul (fontSize (options terminal)) (devicePixelRatio window))
            (fontFamily (options terminal));
    SetTextBaseline "top";
    SetFillStyle style;
    BeginPath;
    Rect (x * scaledCharWidth l)
         (y * scaledLineHeight l + scaledLineDrawY l)
         (width * scaledCharWidth l) (scaledCharHeight l);
    Clip;
    FillText char (x * scaledCharWidth l)
             (y * scaledLineHeight l + scaledLineDrawY l);
    Restore ].

(** The call [clearCells(x + 1, y, 1, 1)] issues, when the glyph is two
    cells wide. *)
Definition clear_continuation (l : BaseRenderLayer) (width x y : Z)
  : list CanvasCall :=
  if width =? 2
  then [ClearRect ((x + 1) * scaledCharWidth l) (y * scaledLineHeight l)
                  (1 * scaledCharWidth l) (1 * scaledLineHeight l)]
  else [].

(** The [drawImage] call that copies the glyph of [code] in colour slot
    [slot] from the atlas to the cell [(x, y)]. *)
Definition blit_call (spacing : Z) (l : BaseRenderLayer)
    (code slot x y : Z) : CanvasCall :=
  DrawImage (_charAtlas l)
    (code * (scaledCharWidth l + spacing))
    (slot * (scaledCharHeight l + spacing))
    (scaledCharWidth l) (scaledCharHeight l)
    (x * scaledCharWidth l) (y * scaledLineHeight l + scaledLineDrawY l)
    (scaledCharWidth l) (scaledCharHeight l).

(** The test [isAscii && (isBasicColor || isDefaultColor)]. *)
Definition atlas_test (code fg : Z) (bold : bool) : bool :=
  (code <? 256) && (((colorIndex fg bold >? 1) && (fg <? 16)) || (fg >=? 256)).

(** The fill style [_drawUncachedChar] selects. *)
Definition fill_style (cs : IColorSet) (fg : Z) : option Color :=
  if fg =? INVERTED_DEFAULT_COLOR then Some (background cs)
  else if fg <? 256 then js_index (ansi cs) fg
  else Some (foreground cs).

(** An event that refreshes the atlas: a theme change, or a resize that
    reports a new character size. *)
Definition requests_atlas (ev : Event) : bool :=
  match ev with
  | EvThemeChanged _ _ => true
  | EvResize _ _ _ _ charSizeChanged => charSizeChanged
  | _ => false
  end.

(** An event that neither completes an acquisition nor requests one. *)
Definition quiet (ev : Event) : bool :=
  match ev with
  | EvFulfil _ _ => false
  | EvThemeChanged _ _ => false
  | EvResize _ _ _ _ charSizeChanged => negb charSizeChanged
  | _ => true
  end.

(** An event that only draws or notifies: anything but a theme change,
    a resize and the completion of an acquisition. *)
Definition keeps_state (ev : Event) : bool :=
  match ev with
  | EvThemeChanged _ _ => false
  | EvResize _ _ _ _ _ => false
  | EvFulfil _ _ => false
  | _ => true
  end.

(** The event completes the acquisition behind [promise]. *)
Definition fulfils (promise : nat) (ev : Event) : bool :=
  match ev with
  | EvFulfil p _ => Nat.eqb promise p
  | _ => false
  end.

Definition is_immediate (r : AcquireResult) : bool :=
  match r with Immediate _ => true | Pending _ => false end.

(** Calls that write the part of the context that [save] and [restore]
    keep: font, text baseline, fill style, line width, clipping region. *)
Definition sets_context_state (c : CanvasCall) : bool :=
  match c with
  | SetFont _ _ => true
  | SetTextBaseline _ => true
  | SetFillStyle _ => true
  | SetLineWidth _ => true
  | Clip => true
  | ResetState => true
  | _ => false
  end.

(** Every [restore] closes a [save], every [save] is closed, the context
    state is written only between a [save] and its [restore], and the
    canvas is not given a new size; [depth] counts the [save]s that are
    open. *)
Fixpoint bracketed (depth : nat) (cs : list CanvasCall) : bool :=
  match cs with
  | [] => Nat.eqb depth 0
  | ResetState :: rest => false
  | Save :: rest => bracketed (S depth) rest
  | Restore :: rest =>
      match depth with
      | O => false
      | S d => bracketed d rest
      end
  | c :: rest =>
      (negb (sets_context_state c) || negb (Nat.eqb depth 0))
      && bracketed depth rest
  end.

(** The methods that leave the context in another state than they found
    it in: two write the state for their caller, [resize] resets it. *)
Definition changes_context (ev : Event) : bool :=
  match ev with
  | EvFillCharTrueColor _ _ _ _ _ => true
  | EvStrokeRectAtCell _ _ _ _ _ => true
  | EvResize _ _ _ _ _ => true
  | _ => false
  end.

(** The vertical placement of a glyph in its line: the glyph starts at or
    below the top of the line and ends at or above its bottom. *)
Definition glyph_in_line (l : BaseRenderLayer) : Prop :=
  0 <= scaledLineDrawY l /\
  scaledLineDrawY l + scaledCharHeight l <= scaledLineHeight l.

(** The rectangle lies in the pixel block of the [width] cells that start
    at cell [(x, y)]. *)
Definition in_cells (l : BaseRenderLayer) (x y width : Z)
    (rx ry rw rh : Z) : Prop :=
  x * scaledCharWidth l <= rx /\
  rx + rw <= (x + width) * scaledCharWidth l /\
  y * scaledLineHeight l <= ry /\
  ry + rh <= (y + 1) * scaledLineHeight l.

(** Where a list of calls can paint.  The state that matters is the
    clipping region, the current path and the saved clipping regions; a
    region is a rectangle that contains it, [None] when nothing bounds
    it.  [clip] with a path of one rectangle bounds the region by that
    rectangle; with any other path the old bound still holds.  The result
    lists, for every call that paints, a rectangle that contains what it
    paints. *)
Fixpoint painted (clip : option (Z * Z * Z * Z)) (path : list (Z * Z * Z * Z))
    (saved : list (option (Z * Z * Z * Z))) (cs : list CanvasCall)
  : list (option (Z * Z * Z * Z)) :=
  match cs with
  | [] => []
  | Save :: rest => painted clip path (clip :: saved) rest
  | Restore :: rest =>
      match saved with
      | c :: saved' => painted c path saved' rest
      | [] => painted clip path [] rest
      end
  | BeginPath :: rest => painted clip [] saved rest
  | Rect x y w h :: rest => painted clip (path ++ [(x, y, w, h)]) saved rest
  | Clip :: rest =>
      painted (match path with [r] => Some r | _ => clip end) path saved rest
  | FillText _ _ _ :: rest => clip :: painted clip path saved rest
  | DrawImage _ _ _ _ _ dx dy dw dh :: rest =>
      Some (dx, dy, dw, dh) :: painted clip path saved rest
  | ClearRect x y w h :: rest =>
      Some (x, y, w, h) :: painted clip path saved rest
  | FillRect _ _ _ _ :: rest => clip :: painted clip path saved rest
  | StrokeRect _ _ _ _ :: rest => clip :: painted clip path saved rest
  | ResetState :: rest => None :: painted None [] [] rest
  | _ :: rest => painted clip path saved rest
  end.

(** The painted region is bounded and lies in the [width] cells that
    start at cell [(x, y)]. *)
Definition region_in_cells (l : BaseRenderLayer) (x y width : Z)
    (r : option (Z * Z * Z * Z)) : Prop :=
  match r with
  | Some (rx, ry, rw, rh) => in_cells l x y width rx ry rw rh
  | None => False
  end.

(** ** Sample inputs *)

Definition theme_dark : IColorSet :=
  mkColorSet "#ffffff"%string "#000000"%string
    (map (fun n => String (Ascii.ascii_of_nat n) EmptyString) (seq 0 256)).

Definition theme_light : IColorSet :=
  mkColorSet "#000000"%string "#ffffff"%string
    (map (fun n => String (Ascii.ascii_of_nat n) EmptyString) (seq 0 256)).

Definition terminal0 : ITerminal :=
  mkTerminal (mkCharMeasure 7 15) (mkOptions (3 # 2) 15 "courier").

Definition window0 : Window := mkWindow 2.

(** A layer after a first resize that did not report a new character
    size: the geometry is computed, no atlas was requested yet. *)
Definition layer0 : BaseRenderLayer :=
  mkLayer (mkCanvas 1120 720 560 360) theme_dark 14 30 45 8 None.

Definition world0 : World := mkWorld layer0 [] [].

(** A layer after a resize that holds the bitmap atlas 7. *)
Definition world_held : World :=
  mkWorld (mkLayer (mkCanvas 1120 720 560 360) theme_dark 14 30 45 8
                   (Some (ImageBitmap 7)))
          [] [].

(** An atlas module that answers every call with a new promise. *)
Definition acquire_pending (earlier : list AtlasKey) (terminal : ITerminal)
    (cs : IColorSet) (w h : Z) : AcquireResult :=
  Pending (List.length earlier).

(** An atlas module that always has the canvas at hand. *)
Definition acquire_now (earlier : list AtlasKey) (terminal : ITerminal)
    (cs : IColorSet) (w h : Z) : AcquireResult :=
  Immediate (List.length earlier).

(** Operations on a layer that is waiting for its atlas: hooks, fills, a
    direct draw, a resize that keeps the character size. *)
Definition events_waiting : list Event :=
  [ EvFocus terminal0;
    EvClearAll;
    EvFillCells 0 0 80 1;
    EvDrawChar window0 terminal0 "A" 65 1 0 0 200 false;
    EvResize window0 terminal0 560 360 false;
    EvCursorMove terminal0 ].

(** A longer life of a layer: theme changes, draws, a second resize, a
    completion. *)
Definition events_mixed : list Event :=
  [ EvThemeChanged terminal0 theme_light;
    EvDrawChar window0 terminal0 "A" 65 2 3 2 5 false;
    EvResize (mkWindow (double (11 # 10))) terminal0 560 360 true;
    EvFulfil 0 3;
    EvDrawChar window0 terminal0 "A" 65 1 0 0 (-1) true;
    EvStrokeRectAtCell window0 1 1 1 1 ].

(** A terminal whose line height option is 1. *)
Definition terminal_plain : ITerminal :=
  mkTerminal (mkCharMeasure 7 15) (mkOptions 1 15 "courier").

(** A layer that waits for promise 4 and lives through a synchronous
    refresh and the completion of another promise in the meantime. *)
Definition world_waiting : World :=
  mkWorld (mkLayer (mkCanvas 1120 720 560 360) theme_dark 14 30 45 8 None)
          [mkAtlasKey terminal0 theme_dark 14 30] [4%nat].

Definition events_before_landing : list Event :=
  [ EvDrawChar window0 terminal0 "A" 65 1 0 0 200 false;
    EvFulfil 9 1;
    EvResize window0 terminal0 560 360 true;
    EvFillCells 0 0 80 1 ].

(** Draws and notifications only. *)
Definition events_drawing : list Event :=
  [ EvBlur terminal0;
    EvDrawChar window0 terminal0 "A" 65 2 3 2 5 false;
    EvDrawChar window0 terminal0 "A" 65 1 0 0 200 true;
    EvFillCharTrueColor window0 terminal0 (mkCharData "A" 1) 0 0;
    EvFillBottomLineAtCells window0 0 0 None;
    EvStrokeRectAtCell window0 1 1 2 1;
    EvGridChanged terminal0 0 23;
    EvClearAll ].

(** ** Proof tools *)

Ltac run_js :=
  cbv [handle resize _refreshCharAtlas onThemeChanged
       onOptionsChanged onBlur onFocus onCursorMove onGridChanged
       onSelectionChanged fillCells fillBottomLineAtCells fillLeftLineAtCell
       strokeRectAtCell clearAll clearCells fillCharTrueColor
       _drawUncachedChar drawChar fulfil
       assign_canvas_width assign_canvas_height assign_canvas_style
       bind ret modify_this get_this ctx ctx_drawImage
       call_acquireCharAtlas promise_then
       set_canvas set_scaledCharWidth set_scaledCharHeight
       set_scaledLineHeight set_scaledLineDrawY set_charAtlas
       completion world calls this app geometry
       scaledCharWidth scaledCharHeight scaledLineHeight scaledLineDrawY
       _charAtlas colors _canvas atlasRequests registered
       cv_width cv_height style_width style_height].

(** Case analysis on the innermost test the code is stuck on. *)
Ltac split_js :=
  repeat (match goal with
          | |- context [match ?x with _ => _ end] =>
              lazymatch x with
              | context [match _ with _ => _ end] => fail
              | _ => destruct x eqn:?
              end
          end; run_js).

(** The same unfolding, with the list operations left folded. *)
Ltac step_js :=
  cbv [handle resize _refreshCharAtlas onThemeChanged
       onOptionsChanged onBlur onFocus onCursorMove onGridChanged
       onSelectionChanged fillCells fillBottomLineAtCells fillLeftLineAtCell
       strokeRectAtCell clearAll clearCells fillCharTrueColor
       _drawUncachedChar drawChar fulfil
       assign_canvas_width assign_canvas_height assign_canvas_style
       bind ret modify_this get_this ctx ctx_drawImage
       call_acquireCharAtlas promise_then
       set_canvas set_scaledCharWidth set_scaledCharHeight
       set_scaledLineHeight set_scaledLineDrawY set_charAtlas
       completion world calls this
       scaledCharWidth scaledCharHeight scaledLineHeight scaledLineDrawY
       _charAtlas colors _canvas atlasRequests registered
       cv_width cv_height style_width style_height].

Ltac case_js :=
  repeat (match goal with
          | |- context [match ?x with _ => _ end] =>
              lazymatch x with
              | context [match _ with _ => _ end] => fail
              | _ => destruct x eqn:?
              end
          end; step_js).

(** Comparisons of rationals, as propositions. *)
Ltac qcmp :=
  repeat match goal with
         | H : (_ ?= _)%Q = Eq |- _ => apply <- Qeq_alt in H
         | H : (_ ?= _)%Q = Lt |- _ => apply <- Qlt_alt in H
         | H : (_ ?= _)%Q = Gt |- _ => apply <- Qgt_alt in H
         end.

(** ** Rounding *)

Lemma Math_round_nearest (q : Q) :
  (q - (1 # 2) < inject_Z (Math_round q) /\
   inject_Z (Math_round q) <= q + (1 # 2))%Q.
Proof.
  unfold Math_round. split.
  - pose proof (Qlt_floor (q + (1 # 2))) as H.
    rewrite inject_Z_plus in H.
    apply Qplus_lt_l with (z := 1%Q).
    eapply Qle_lt_trans; [| exact H].
    ring_simplify. apply Qle_refl.
  - apply Qfloor_le.
Qed.

Lemma Math_ceil_nonneg (q : Q) : (0 <= q)%Q -> 0 <= Math_ceil q.
Proof.
  intros H. unfold Math_ceil.
  change 0 with (Qceiling 0). now apply Qceiling_resp_le.
Qed.

Lemma Math_round_half (d : Z) :
  0 <= d -> 0 <= Math_round (inject_Z d / 2) <= d.
Proof.
  intros Hd. unfold Math_round.
  assert (E : (inject_Z d / 2 + (1 # 2) == inject_Z (d + 1) / inject_Z 2)%Q).
  { rewrite inject_Z_plus. change (inject_Z 2) with 2%Q.
    change (inject_Z 1) with 1%Q. field. }
  rewrite E, <- Zdiv_Qdiv.
  Z.div_mod_to_equations. lia.
Qed.

(** *** Rounding to the nearest integer *)

Lemma rne_bounds (t : Q) : Qfloor t <= rne t <= Qfloor t + 1.
Proof.
  unfold rne. cbv zeta.
  destruct (Qcompare _ _); [destruct (Z.even _) | |]; lia.
Qed.

Lemma rne_comp (t u : Q) : (t == u)%Q -> rne t = rne u.
Proof.
  intros H. unfold rne. cbv zeta. rewrite (Qfloor_comp t u H).
  assert (E : (t - inject_Z (Qfloor u) == u - inject_Z (Qfloor u))%Q)
    by now rewrite H.
  now rewrite E.
Qed.

Lemma rne_Z (z : Z) : rne (inject_Z z) = z.
Proof.
  unfold rne. cbv zeta. rewrite Qfloor_Z.
  assert (E : (inject_Z z - inject_Z z == 0)%Q) by ring.
  rewrite E. reflexivity.
Qed.

Lemma rne_mono (t u : Q) : (t <= u)%Q -> rne t <= rne u.
Proof.
  intros H.
  pose proof (Qfloor_resp_le t u H) as Hf.
  destruct (Z.eq_dec (Qfloor t) (Qfloor u)) as [E | N].
  - unfold rne. cbv zeta. rewrite E.
    assert (Hr : (t - inject_Z (Qfloor u) <= u - inject_Z (Qfloor u))%Q).
    { apply Qplus_le_l with (z := inject_Z (Qfloor u)). ring_simplify. exact H. }
    destruct (Qcompare (t - inject_Z (Qfloor u)) (1 # 2)) eqn:Ct;
      destruct (Qcompare (u - inject_Z (Qfloor u)) (1 # 2)) eqn:Cu;
      try (destruct (Z.even (Qfloor u))); try lia; exfalso;
      qcmp; lra.
  - pose proof (rne_bounds t). pose proof (rne_bounds u). lia.
Qed.

(** *** Rounding to the nearest double *)

Lemma pow2_pos (s : Z) : 0 <= s -> 0 < 2 ^ s.
Proof. intros. apply Z.pow_pos_nonneg; lia. Qed.

Lemma Qdiv_inject (k p : Z) :
  0 < p -> (inject_Z (k * p) / inject_Z p == inject_Z k)%Q.
Proof.
  intros Hp. rewrite inject_Z_mult. field.
  intros H. unfold Qeq in H. simpl in H. lia.
Qed.

Lemma Qdiv_le (t u : Q) (p : Z) :
  0 < p -> (t <= u)%Q -> (t / inject_Z p <= u / inject_Z p)%Q.
Proof.
  intros Hp H. apply Qmult_le_compat_r; [exact H |].
  apply Qinv_le_0_compat. change 0%Q with (inject_Z 0). rewrite <- Zle_Qle. lia.
Qed.

Lemma ulp_shift_nonneg t : 0 <= ulp_shift t.
Proof. unfold ulp_shift. lia. Qed.

Lemma ulp_shift_mono t u : (t <= u)%Q -> ulp_shift t <= ulp_shift u.
Proof.
  intros H. unfold ulp_shift.
  pose proof (Z.log2_le_mono _ _ (Qfloor_resp_le t u H)). lia.
Qed.

(** [t] lies below 2^(s + 53) units. *)
Lemma below_top t : (t < inject_Z (2 ^ (ulp_shift t + 53)))%Q.
Proof.
  assert (Hlt : Qfloor t + 1 <= 2 ^ (ulp_shift t + 53)).
  { unfold ulp_shift.
    destruct (Z_lt_le_dec 0 (Qfloor t)) as [Hp | Hn].
    - destruct (Z.log2_spec _ Hp) as [_ Hu].
      assert (2 ^ Z.succ (Z.log2 (Qfloor t))
              <= 2 ^ (Z.max 0 (Z.log2 (Qfloor t) - 52) + 53)).
      { apply Z.pow_le_mono_r; lia. }
      lia.
    - pose proof (pow2_pos (Z.max 0 (Z.log2 (Qfloor t) - 52) + 53)). lia. }
  eapply Qlt_le_trans; [apply Qlt_floor |].
  rewrite <- Zle_Qle. exact Hlt.
Qed.

(** When the spacing is more than one unit, [t] is at least 2^(s + 52)
    units. *)
Lemma above_bottom t :
  0 < ulp_shift t -> (inject_Z (2 ^ (ulp_shift t + 52)) <= t)%Q.
Proof.
  intros Hs. unfold ulp_shift in *.
  assert (Hp : 0 < Qfloor t).
  { destruct (Z_lt_le_dec 0 (Qfloor t)); [assumption |].
    rewrite Z.log2_nonpos in Hs by assumption. lia. }
  destruct (Z.log2_spec _ Hp) as [Hl _].
  eapply Qle_trans; [| apply Qfloor_le].
  rewrite <- Zle_Qle.
  replace (Z.max 0 (Z.log2 (Qfloor t) - 52) + 52) with (Z.log2 (Qfloor t)) by lia.
  exact Hl.
Qed.

Lemma mantissa_le t : rne (t / inject_Z (2 ^ ulp_shift t)) <= 2 ^ 53.
Proof.
  pose proof (ulp_shift_nonneg t) as Hs.
  rewrite <- (rne_Z (2 ^ 53)). apply rne_mono.
  rewrite <- (Qdiv_inject (2 ^ 53) (2 ^ ulp_shift t)) by now apply pow2_pos.
  apply Qdiv_le; [now apply pow2_pos |].
  rewrite <- Z.pow_add_r by lia.
  rewrite Z.add_comm. apply Qlt_le_weak, below_top.
Qed.

Lemma mantissa_ge t :
  0 < ulp_shift t -> 2 ^ 52 <= rne (t / inject_Z (2 ^ ulp_shift t)).
Proof.
  intros Hs.
  rewrite <- (rne_Z (2 ^ 52)). apply rne_mono.
  rewrite <- (Qdiv_inject (2 ^ 52) (2 ^ ulp_shift t)) by (apply pow2_pos; lia).
  apply Qdiv_le; [apply pow2_pos; lia |].
  rewrite <- Z.pow_add_r by lia.
  rewrite Z.add_comm. now apply above_bottom.
Qed.

Lemma round_scaled_mono t u :
  (t <= u)%Q -> round_scaled t <= round_scaled u.
Proof.
  intros H. unfold round_scaled. cbv zeta.
  pose proof (ulp_shift_mono t u H) as Hs.
  pose proof (ulp_shift_nonneg t) as Ht.
  destruct (Z.eq_dec (ulp_shift t) (ulp_shift u)) as [E | N].
  - rewrite E. apply Z.mul_le_mono_nonneg_r.
    + pose proof (pow2_pos (ulp_shift u)). lia.
    + apply rne_mono. apply Qdiv_le; [apply pow2_pos; lia | exact H].
  - assert (Hu : 0 < ulp_shift u) by lia.
    pose proof (mantissa_le t) as Ha.
    pose proof (mantissa_ge u Hu) as Hb.
    pose proof (pow2_pos (ulp_shift t) Ht) as Pt.
    pose proof (pow2_pos (ulp_shift u) ltac:(lia)) as Pu.
    assert (Hpow : 2 ^ 53 * 2 ^ ulp_shift t <= 2 ^ 52 * 2 ^ ulp_shift u).
    { rewrite <- !Z.pow_add_r by lia. apply Z.pow_le_mono_r; lia. }
    nia.
Qed.

Lemma round_scaled_comp t u : (t == u)%Q -> round_scaled t = round_scaled u.
Proof.
  intros H. unfold round_scaled, ulp_shift. cbv zeta.
  rewrite (Qfloor_comp t u H).
  f_equal. apply rne_comp. now rewrite H.
Qed.

Lemma round_scaled_grid t : (0 <= t)%Q -> grid (round_scaled t).
Proof.
  intros Ht. unfold round_scaled. cbv zeta.
  pose proof (ulp_shift_nonneg t) as Hs.
  exists (rne (t / inject_Z (2 ^ ulp_shift t))), (ulp_shift t).
  split; [| split; [exact Hs | reflexivity]].
  split; [| apply mantissa_le].
  rewrite <- (rne_Z 0). apply rne_mono.
  apply Qle_shift_div_l.
  - change 0%Q with (inject_Z 0). rewrite <- Zlt_Qlt. now apply pow2_pos.
  - now rewrite Qmult_0_l.
Qed.

Lemma round_scaled_id X : grid X -> round_scaled (inject_Z X) = X.
Proof.
  intros (m & s' & Hm & Hs' & ->).
  unfold round_scaled. cbv zeta.
  set (X := m * 2 ^ s').
  set (s := ulp_shift (inject_Z X)).
  assert (Hs : 0 <= s) by apply ulp_shift_nonneg.
  assert (Hdiv : exists k, X = k * 2 ^ s).
  { destruct (Z_le_gt_dec s s') as [Hle | Hgt].
    - exists (m * 2 ^ (s' - s)). unfold X.
      rewrite <- Z.mul_assoc, <- Z.pow_add_r by lia.
      now replace (s' - s + s) with s' by lia.
    - assert (Hsv : s = Z.log2 X - 52).
      { unfold s, ulp_shift in *. rewrite Qfloor_Z in *. lia. }
      assert (HX : 0 < X).
      { destruct (Z_lt_le_dec 0 X); [assumption |].
        rewrite Z.log2_nonpos in Hsv by assumption. lia. }
      destruct (Z.log2_spec _ HX) as [Hl Hu].
      pose proof (pow2_pos s' Hs') as Ps.
      assert (Hge : 2 ^ (53 + s') <= X).
      { eapply Z.le_trans; [| exact Hl]. apply Z.pow_le_mono_r; lia. }
      rewrite Z.pow_add_r in Hge by lia.
      assert (Hm53 : m = 2 ^ 53) by (unfold X in Hge; nia).
      assert (HXv : X = 2 ^ (53 + s')).
      { unfold X. rewrite Hm53. rewrite Z.pow_add_r by lia. reflexivity. }
      assert (Hlog : Z.log2 X = 53 + s').
      { rewrite HXv. apply Z.log2_pow2. lia. }
      exists (2 ^ 52). rewrite HXv, Hsv, Hlog.
      rewrite <- Z.pow_add_r by lia. f_equal. lia. }
  destruct Hdiv as (k & Hk).
  rewrite (rne_comp _ (inject_Z k)).
  - rewrite rne_Z. now rewrite <- Hk.
  - rewrite Hk. apply Qdiv_inject. now apply pow2_pos.
Qed.

Lemma tiny_pos : 0 < tiny.
Proof. unfold tiny. now apply pow2_pos. Qed.

Lemma Qtiny_pos : (0 < inject_Z tiny)%Q.
Proof. change 0%Q with (inject_Z 0). rewrite <- Zlt_Qlt. apply tiny_pos. Qed.

Lemma fl_abs_nonneg q : (0 <= q)%Q -> (0 <= double_abs q)%Q.
Proof.
  intros Hq. unfold double_abs.
  apply Qle_shift_div_l; [apply Qtiny_pos |]. rewrite Qmult_0_l.
  change 0%Q with (inject_Z 0). rewrite <- Zle_Qle.
  rewrite <- (round_scaled_id 0).
  - apply round_scaled_mono. change (inject_Z 0) with 0%Q.
    apply Qmult_le_0_compat; [exact Hq | apply Qlt_le_weak, Qtiny_pos].
  - exists 0, 0. cbn. lia.
Qed.

Lemma fl_abs_mono a b : (a <= b)%Q -> (double_abs a <= double_abs b)%Q.
Proof.
  intros H. unfold double_abs.
  apply Qdiv_le; [apply tiny_pos |].
  rewrite <- Zle_Qle. apply round_scaled_mono.
  apply Qmult_le_compat_r; [exact H | apply Qlt_le_weak, Qtiny_pos].
Qed.

Lemma fl_abs_comp a b : (a == b)%Q -> double_abs a = double_abs b.
Proof.
  intros H. unfold double_abs. f_equal. f_equal.
  apply round_scaled_comp. now rewrite H.
Qed.

Lemma double_comp a b : (a == b)%Q -> double a = double b.
Proof.
  intros H. unfold double. rewrite (Qleb_comp 0%Q 0%Q (Qeq_refl 0%Q) a b H).
  destruct (Qle_bool 0 b).
  - now apply fl_abs_comp.
  - f_equal. apply fl_abs_comp. now rewrite H.
Qed.

Lemma double_nonneg q : (0 <= q)%Q -> (0 <= double q)%Q.
Proof.
  intros Hq. unfold double.
  rewrite (proj2 (Qle_bool_iff 0 q) Hq). now apply fl_abs_nonneg.
Qed.

Lemma double_mono a b : (a <= b)%Q -> (double a <= double b)%Q.
Proof.
  intros H. unfold double.
  destruct (Qle_bool 0 a) eqn:Ea; destruct (Qle_bool 0 b) eqn:Eb.
  - now apply fl_abs_mono.
  - apply Qle_bool_iff in Ea.
    assert (Hb : ~ (0 <= b)%Q) by (rewrite <- Qle_bool_iff; congruence).
    lra.
  - assert (Ha : ~ (0 <= a)%Q) by (rewrite <- Qle_bool_iff; congruence).
    pose proof (fl_abs_nonneg (- a) ltac:(lra)).
    apply Qle_bool_iff in Eb. pose proof (fl_abs_nonneg b Eb). lra.
  - pose proof (fl_abs_mono (- b) (- a) ltac:(lra)). lra.
Qed.

(** *** Integers among the doubles *)

Lemma fl_abs_grid_exact (n : Z) :
  grid (n * tiny) -> (double_abs (inject_Z n) == inject_Z n)%Q.
Proof.
  intros Hg. unfold double_abs.
  rewrite (round_scaled_comp _ (inject_Z (n * tiny)))
    by (now rewrite inject_Z_mult).
  rewrite round_scaled_id by exact Hg.
  apply Qdiv_inject, tiny_pos.
Qed.

Lemma small_integer_grid (n : Z) : 0 <= n <= 2 ^ 53 -> grid (n * tiny).
Proof.
  intros Hn. exists n, 1074. repeat split; try lia. 
Qed.

(** A value of the grid is an integer or lies below 2^52: its ceiling
    and its floor are on the grid again. *)
Lemma grid_integer_part X :
  grid X ->
  let y := (inject_Z X / inject_Z tiny)%Q in
  grid (Qceiling y * tiny) /\ grid (Qfloor y * tiny) /\
  0 <= Qfloor y /\ 0 <= Qceiling y.
Proof.
  intros Hg y. pose proof Hg as (m & s & Hm & Hs & HX).
  pose proof tiny_pos as Ht.
  assert (Hy0 : (0 <= y)%Q).
  { unfold y. apply Qle_shift_div_l; [apply Qtiny_pos |]. rewrite Qmult_0_l.
    change 0%Q with (inject_Z 0). rewrite <- Zle_Qle.
    pose proof (pow2_pos s Hs). nia. }
  assert (Hf0 : 0 <= Qfloor y).
  { change 0 with (Qfloor 0). now apply Qfloor_resp_le. }
  assert (Hc0 : 0 <= Qceiling y).
  { change 0 with (Qceiling 0). now apply Qceiling_resp_le. }
  destruct (Z_le_gt_dec 1074 s) as [Hbig | Hsmall].
  - assert (HXt : X = (m * 2 ^ (s - 1074)) * tiny).
    { rewrite HX. unfold tiny. rewrite <- Z.mul_assoc, <- Z.pow_add_r by lia.
      now replace (s - 1074 + 1074) with s by lia. }
    assert (Hyz : (y == inject_Z (m * 2 ^ (s - 1074)))%Q).
    { unfold y. rewrite HXt at 1. apply Qdiv_inject, Ht. }
    rewrite (Qceiling_comp _ _ Hyz), (Qfloor_comp _ _ Hyz).
    rewrite Qceiling_Z, Qfloor_Z, <- HXt.
    repeat split; try assumption.
    + rewrite <- (Qceiling_Z (m * 2 ^ (s - 1074))), <- (Qceiling_comp _ _ Hyz).
      exact Hc0.
    + rewrite <- (Qceiling_Z (m * 2 ^ (s - 1074))), <- (Qceiling_comp _ _ Hyz).
      exact Hc0.
  - assert (Hle : (y <= inject_Z (2 ^ 52))%Q).
    { rewrite <- (Qdiv_inject (2 ^ 52) tiny Ht). unfold y.
      apply Qdiv_le; [exact Ht |]. rewrite <- Zle_Qle.
      rewrite HX. unfold tiny.
      assert (Hp : 2 ^ s <= 2 ^ 1073) by (apply Z.pow_le_mono_r; lia).
      replace (2 ^ 1074) with (2 * 2 ^ 1073)
        by (rewrite <- Z.pow_succ_r by lia; reflexivity).
      replace (2 ^ 53) with (2 * 2 ^ 52) in Hm
        by (rewrite <- Z.pow_succ_r by lia; reflexivity).
      pose proof (pow2_pos s Hs). pose proof (pow2_pos 52 ltac:(lia)).
      nia. }
    assert (Hc : Qceiling y <= 2 ^ 52).
    { rewrite <- (Qceiling_Z (2 ^ 52)). now apply Qceiling_resp_le. }
    pose proof (Qle_floor_ceiling y) as Hfc. rewrite <- Zle_Qle in Hfc.
    assert (2 ^ 52 <= 2 ^ 53) by (apply Z.pow_le_mono_r; lia).
    repeat split; try assumption; apply small_integer_grid; lia.
Qed.

Lemma double_ceil_exact q :
  (double (inject_Z (Qceiling (double q))) == inject_Z (Qceiling (double q)))%Q.
Proof.
  unfold double at 2 3.
  destruct (Qle_bool 0 q) eqn:Eq.
  - apply Qle_bool_iff in Eq.
    unfold double_abs.
    set (X := round_scaled (q * inject_Z tiny)).
    assert (Hg : grid X).
    { apply round_scaled_grid.
      apply Qmult_le_0_compat; [exact Eq | apply Qlt_le_weak, Qtiny_pos]. }
    destruct (grid_integer_part X Hg) as (Hc & _ & _ & Hc0). cbv zeta in *.
    set (h := Qceiling (inject_Z X / inject_Z tiny)) in *.
    unfold double.
    assert (E : Qle_bool 0 (inject_Z h) = true).
    { apply Qle_bool_iff. change 0%Q with (inject_Z 0). now rewrite <- Zle_Qle. }
    rewrite E. now apply fl_abs_grid_exact.
  - assert (Hq : ~ (0 <= q)%Q) by (rewrite <- Qle_bool_iff; congruence).
    unfold double_abs.
    set (X := round_scaled (- q * inject_Z tiny)).
    assert (Hg : grid X).
    { apply round_scaled_grid.
      apply Qmult_le_0_compat; [lra | apply Qlt_le_weak, Qtiny_pos]. }
    destruct (grid_integer_part X Hg) as (_ & Hf & Hf0 & _). cbv zeta in *.
    set (y := (inject_Z X / inject_Z tiny)%Q) in *.
    assert (Hceil : Qceiling (- y) = - Qfloor y).
    { unfold Qceiling. rewrite (Qfloor_comp (- - y) y) by ring. reflexivity. }
    rewrite Hceil.
    set (g := Qfloor y) in *.
    unfold double.
    destruct (Z.eq_dec g 0) as [G0 | Gn].
    + rewrite G0. change (inject_Z (- 0)) with (inject_Z 0).
      assert (E : Qle_bool 0 (inject_Z 0) = true) by reflexivity.
      rewrite E. apply fl_abs_grid_exact. exists 0, 0. cbn. lia.
    + assert (E : Qle_bool 0 (inject_Z (- g)) = false).
      { apply not_true_iff_false. rewrite Qle_bool_iff.
        change 0%Q with (inject_Z 0). rewrite <- Zle_Qle. lia. }
      rewrite E.
      rewrite (fl_abs_comp (- inject_Z (- g)) (inject_Z g))
        by (rewrite inject_Z_opp; ring).
      rewrite (fl_abs_grid_exact g Hf). rewrite inject_Z_opp. reflexivity.
Qed.

(** *** The model against binary64

    [double] and the four operators give the results of the Standard
    Library's binary64 arithmetic on products, sums, differences and
    quotients that are inexact, exact, subnormal or tied, and the rounded
    products behave under [Math.ceil], [Math.floor] and [Math.round] as
    they do in a browser: [10 * 1.1] is 11 and [50 * 1.1] is above 55. *)
Lemma double_agrees_with_binary64 :
  let n := fun z => binary64 z 0 in
  let f11 := b64_div (n 11) (n 10) in
  let f115 := b64_div (n 115) (n 100) in
  let d11 := js_div 11 10 in
  let d115 := js_div 115 100 in
  same_number f11 d11 = true /\
  same_number (b64_mul (n 10) f11) (js_mul 10 d11) = true /\
  same_number (b64_mul (n 50) f11) (js_mul 50 d11) = true /\
  same_number (b64_mul (n 100) f115) (js_mul 100 d115) = true /\
  same_number (b64_mul (n 10) f115) (js_mul 10 d115) = true /\
  same_number (b64_add (n 14) (b64_div f11 (n 2)))
              (js_add 14 (js_div d11 2)) = true /\
  same_number (b64_sub (b64_sub (n 90) f11) (n 1))
              (js_sub (js_sub 90 d11) 1) = true /\
  same_number (b64_div (binary64 1 (-1074)) (n 2))
              (js_div (1 # Z.to_pos (2 ^ 1074)) 2) = true /\
  same_number (b64_div (binary64 3 (-1074)) (n 2))
              (js_div (3 # Z.to_pos (2 ^ 1074)) 2) = true /\
  same_number (b64_mul (b64_div (n (-73)) (n 10)) (b64_div (n 1) (n 10)))
              (js_mul (js_div (-73) 10) (js_div 1 10)) = true /\
  same_number (b64_div (n 1) (n 3)) (js_div 1 3) = true /\
  same_number (b64_mul (binary64 9007199254740993 0) (n 3))
              (js_mul (double 9007199254740993) 3) = true.
Proof. vm_compute. repeat split. Qed.

Lemma double_products_round :
  let d11 := js_div 11 10 in
  let d115 := js_div 115 100 in
  Math_ceil (js_mul 10 d11) = 11 /\
  Math_ceil (js_mul 50 d11) = 56 /\
  Math_floor (js_mul 100 d115) = 114 /\
  Math_round (js_mul 10 d115) = 12.
Proof. vm_compute. repeat split. Qed.

(** *** What [resize] needs of the doubles *)

(** The result of [Math.ceil] on a double is a double. *)
Lemma Math_ceil_is_double (q : Q) :
  (double (inject_Z (Math_ceil (double q))) == inject_Z (Math_ceil (double q)))%Q.
Proof. apply double_ceil_exact. Qed.

Lemma Math_floor_scale (h : Z) (m : Q) :
  (double (inject_Z h) == inject_Z h)%Q ->
  (1 <= m)%Q -> 0 <= h -> h <= Math_floor (js_mul (inject_Z h) m).
Proof.
  intros Hd Hm Hh. unfold Math_floor, js_mul.
  rewrite <- (Qfloor_Z h) at 1.
  apply Qfloor_resp_le.
  assert (H0 : (0 <= inject_Z h)%Q).
  { change 0%Q with (inject_Z 0). now rewrite <- Zle_Qle. }
  apply Qle_trans with (double (inject_Z h)).
  - rewrite Hd. apply Qle_refl.
  - apply double_mono. nra.
Qed.

Lemma Math_floor_unit (h : Z) (m : Q) :
  (double (inject_Z h) == inject_Z h)%Q ->
  Qeq_bool m 1 = true -> Math_floor (js_mul (inject_Z h) m) = h.
Proof.
  intros Hd H. apply Qeq_bool_iff in H. unfold Math_floor, js_mul.
  rewrite (double_comp (inject_Z h * m) (inject_Z h))
    by (rewrite H; ring).
  rewrite (Qfloor_comp _ _ Hd). apply Qfloor_Z.
Qed.

Lemma js_mul_nonneg (a b : Q) : (0 <= a)%Q -> (0 <= b)%Q -> (0 <= js_mul a b)%Q.
Proof.
  intros Ha Hb. apply double_nonneg. now apply Qmult_le_0_compat.
Qed.

(** ** Properties *)

Section Properties.

Variable acquireCharAtlas :
  list AtlasKey -> ITerminal -> IColorSet -> Z -> Z -> AcquireResult.

Variable CHAR_ATLAS_CELL_SPACING : Z.

(** *** Cell geometry *)

(** The geometry after [resize] is a function of the font metrics, the
    device pixel ratio and the line height alone. *)
Lemma resize_fields window terminal cw ch csc wd :
  let h := Math_ceil (js_mul (cm_height (charMeasure terminal))
                             (devicePixelRatio window)) in
  let lh := Math_floor (js_mul (inject_Z h) (lineHeight (options terminal))) in
  geometry (this (world (resize acquireCharAtlas window terminal cw ch csc wd))) =
    (Math_ceil (js_mul (cm_width (charMeasure terminal))
                       (devicePixelRatio window)),
     h, lh,
     if Qeq_bool (lineHeight (options terminal)) 1 then 0
     else Math_round (inject_Z (lh - h) / 2)).
Proof.
  destruct wd as [[cv cs w h lh dy at_] rq rg].
  destruct csc; run_js; split_js; reflexivity.
Qed.

Lemma resize_heights window terminal cw ch csc wd :
  let l := this (world (resize acquireCharAtlas window terminal cw ch csc
                               wd)) in
  let h := Math_ceil (js_mul (cm_height (charMeasure terminal))
                             (devicePixelRatio window)) in
  let lh := Math_floor (js_mul (inject_Z h) (lineHeight (options terminal))) in
  scaledCharWidth l
    = Math_ceil (js_mul (cm_width (charMeasure terminal))
                        (devicePixelRatio window)) /\
  scaledCharHeight l = h /\
  scaledLineHeight l = lh /\
  scaledLineDrawY l =
    if Qeq_bool (lineHeight (options terminal)) 1 then 0
    else Math_round (inject_Z (lh - h) / 2).
Proof.
  destruct wd as [[cv cs w h lh dy at_] rq rg].
  destruct csc; run_js; split_js; repeat split.
Qed.

(** A [resize] that is told the character size did not change touches
    neither the atlas nor the atlas module. *)
Lemma resize_same_size_keeps_atlas window terminal cw ch wd :
  let wd' := world (resize acquireCharAtlas window terminal cw ch false wd) in
  _charAtlas (this wd') = _charAtlas (this wd) /\
  atlasRequests wd' = atlasRequests wd /\
  registered wd' = registered wd.
Proof.
  destruct wd as [[cv cs w h lh dy at_] rq rg].
  run_js. repeat split.
Qed.

(** C6. [resize] computes scaledCharWidth = ceil(fontWidth * r),
    scaledCharHeight = ceil(fontHeight * r); scaledLineHeight is
    floor(scaledCharHeight * m) when m is not 1 and scaledCharHeight
    itself when m is 1; scaledLineDrawY is 0 when m is 1 and
    round((scaledLineHeight - scaledCharHeight) / 2) otherwise.  The
    products are those of the code: each is rounded to a double before
    the ceiling or the floor is taken. *)
Theorem resize_geometry :
  forall window terminal canvasWidth canvasHeight charSizeChanged wd,
    let l := this (world (resize acquireCharAtlas window terminal canvasWidth canvasHeight
                                  charSizeChanged wd)) in
    let r := devicePixelRatio window in
    let m := lineHeight (options terminal) in
    scaledCharWidth l = Qceiling (js_mul (cm_width (charMeasure terminal)) r) /\
    scaledCharHeight l = Qceiling (js_mul (cm_height (charMeasure terminal)) r) /\
    scaledLineHeight l =
      (if Qeq_bool m 1 then scaledCharHeight l
       else Qfloor (js_mul (inject_Z (scaledCharHeight l)) m)) /\
    scaledLineDrawY l =
      (if Qeq_bool m 1 then 0
       else Math_round
              (inject_Z (scaledLineHeight l - scaledCharHeight l) / 2)).
Proof.
  intros window terminal cw ch csc wd l r m.
  destruct (resize_heights window terminal cw ch csc wd)
    as (Hw & Hh & Hlh & Hdy).
  fold l in Hw, Hh, Hlh, Hdy. fold r m in Hw, Hh, Hlh, Hdy.
  split; [exact Hw |]. split; [exact Hh |].
  rewrite Hdy, Hlh, Hh.
  split; [| reflexivity].
  destruct (Qeq_bool m 1) eqn:E; [| reflexivity].
  apply Math_floor_unit; [apply Math_ceil_is_double | exact E].
Qed.

(** After a [resize] with sound measurements a line is at least as tall
    as a glyph. *)
Lemma resize_line_fits window terminal cw ch csc wd :
  metrics_ok window terminal ->
  line_fits (this (world (resize acquireCharAtlas window terminal cw ch csc wd))).
Proof.
  intros (Hh & Hr & Hm).
  destruct (resize_heights window terminal cw ch csc wd)
    as (_ & Hch & Hlh & _).
  unfold line_fits. rewrite Hch, Hlh.
  apply Math_floor_scale; [apply Math_ceil_is_double | exact Hm |].
  apply Math_ceil_nonneg. now apply js_mul_nonneg.
Qed.

(** Only [resize] writes the glyph and line heights. *)
Lemma handle_keeps_heights ev wd :
  is_resize ev = false ->
  scaledCharHeight (this (world (handle acquireCharAtlas CHAR_ATLAS_CELL_SPACING ev wd))) = scaledCharHeight (this wd)
  /\ scaledLineHeight (this (world (handle acquireCharAtlas CHAR_ATLAS_CELL_SPACING ev wd)))
     = scaledLineHeight (this wd).
Proof.
  destruct wd as [[cv cs w h lh dy at_] rq rg].
  destruct ev; intros Hr; try discriminate Hr; run_js.
  all: try (split; reflexivity).
  all: split_js; split; reflexivity.
Qed.

Lemma handle_line_fits ev wd :
  resize_ok ev -> line_fits (this wd) ->
  line_fits (this (world (handle acquireCharAtlas CHAR_ATLAS_CELL_SPACING ev wd))).
Proof.
  intros Hok Hfit.
  destruct (is_resize ev) eqn:E.
  - destruct ev; try discriminate E.
    now apply resize_line_fits.
  - destruct (handle_keeps_heights ev wd E) as [Hh Hl].
    unfold line_fits in *. now rewrite Hh, Hl.
Qed.

Lemma run_line_fits evs : forall wd,
  Forall resize_ok evs -> line_fits (this wd) ->
  line_fits (this (run acquireCharAtlas CHAR_ATLAS_CELL_SPACING evs wd)).
Proof.
  induction evs as [| ev evs IH]; intros wd Hall Hfit.
  - exact Hfit.
  - inversion Hall as [| ? ? Hev Hrest]; subst.
    cbn [run]. apply IH; [exact Hrest |].
    now apply handle_line_fits.
Qed.

(** C7. After a [resize] with a line height of at least 1 (and font
    metrics that are not negative) scaledLineHeight >= scaledCharHeight,
    and the inequality still holds after any further sequence of
    operations on the layer. *)
Theorem line_fits_invariant :
  forall window terminal canvasWidth canvasHeight charSizeChanged evs wd,
    metrics_ok window terminal ->
    Forall resize_ok evs ->
    let wd1 := world (resize acquireCharAtlas window terminal canvasWidth canvasHeight
                              charSizeChanged wd) in
    scaledLineHeight (this wd1) >= scaledCharHeight (this wd1) /\
    scaledLineHeight (this (run acquireCharAtlas CHAR_ATLAS_CELL_SPACING evs wd1))
      >= scaledCharHeight (this (run acquireCharAtlas CHAR_ATLAS_CELL_SPACING evs wd1)).
Proof.
  intros window terminal cw ch csc evs wd Hm Hevs wd1.
  assert (H1 : line_fits (this wd1)) by now apply resize_line_fits.
  pose proof (run_line_fits evs wd1 Hevs H1) as H2.
  unfold line_fits in *. lia.
Qed.

(** C9. Two [resize] calls in a row with the same arguments leave the
    same geometry as one; and when charSizeChanged is false the second
    call requests no atlas and leaves the held atlas as it was. *)
Theorem resize_idempotent :
  forall window terminal canvasWidth canvasHeight charSizeChanged wd,
    let once := world (resize acquireCharAtlas window terminal canvasWidth canvasHeight
                               charSizeChanged wd) in
    let twice := world (resize acquireCharAtlas window terminal canvasWidth canvasHeight
                                charSizeChanged once) in
    let once_same := world (resize acquireCharAtlas window terminal canvasWidth
                                    canvasHeight false wd) in
    let twice_same := world (resize acquireCharAtlas window terminal canvasWidth
                                     canvasHeight false once_same) in
    geometry (this twice) = geometry (this once) /\
    geometry (this twice_same) = geometry (this once_same) /\
    _charAtlas (this twice_same) = _charAtlas (this once_same) /\
    atlasRequests twice_same = atlasRequests once_same /\
    registered twice_same = registered once_same.
Proof.
  intros window terminal cw ch csc wd once twice once_same twice_same.
  split; [| split].
  - unfold twice, once. now rewrite !resize_fields.
  - unfold twice_same, once_same. now rewrite !resize_fields.
  - apply resize_same_size_keeps_atlas.
Qed.

(** *** Drawing a character *)

Lemma colorIndex_cases fg bold :
  (fg < 256 -> colorIndex fg bold = fg + 2) /\
  (fg >= 256 -> bold = true -> colorIndex fg bold = 1) /\
  (fg >= 256 -> bold = false -> colorIndex fg bold = 0).
Proof.
  unfold colorIndex.
  destruct (Z.ltb_spec fg 256); repeat split; intros; subst;
    try reflexivity; lia.
Qed.

Lemma atlas_test_spec code fg bold :
  atlas_test code fg bold = true <->
  code < 256 /\
  ((2 <= colorIndex fg bold <= 17 /\ fg < 16) \/ fg >= 256).
Proof.
  unfold atlas_test, colorIndex.
  rewrite andb_true_iff, orb_true_iff, andb_true_iff.
  rewrite !Z.ltb_lt, Z.gtb_gt, Z.geb_ge.
  destruct (Z.ltb_spec fg 256); [lia |].
  destruct bold; lia.
Qed.

(** Everything [drawChar] does: it leaves the layer as it is, and issues
    the clearing call of a wide glyph followed by the calls of the path
    chosen by the test. *)
Lemma drawChar_outcome window terminal char code width x y fg bold wd :
  let l := this wd in
  drawChar CHAR_ATLAS_CELL_SPACING window terminal char code width x y fg bold wd =
    if atlas_test code fg bold
    then mkOutcome
           (match _charAtlas l with
            | Some _ => Normal tt
            | None => Throw TypeError
            end)
           wd
           (clear_continuation l width x y
            ++ [blit_call CHAR_ATLAS_CELL_SPACING l code
                          (colorIndex fg bold) x y])
    else mkOutcome (Normal tt) wd
           (clear_continuation l width x y
            ++ direct_draw_calls window terminal l
                 (fill_style (colors l) fg) char width x y).
Proof.
  destruct wd as [[cv cs w h lh dy at_] rq rg].
  unfold atlas_test, clear_continuation, blit_call, direct_draw_calls,
    fill_style.
  run_js. split_js; reflexivity.
Qed.

Lemma clear_continuation_no_glyph l width x y :
  existsb is_DrawImage (clear_continuation l width x y) = false /\
  existsb is_FillText (clear_continuation l width x y) = false.
Proof.
  unfold clear_continuation. destruct (width =? 2); split; reflexivity.
Qed.

Lemma direct_draw_calls_no_blit window terminal l style char width x y :
  existsb is_DrawImage
    (direct_draw_calls window terminal l style char width x y) = false /\
  existsb is_FillText
    (direct_draw_calls window terminal l style char width x y) = true /\
  existsb is_ClearRect
    (direct_draw_calls window terminal l style char width x y) = false.
Proof.
  repeat split.
Qed.

(** Without an atlas the test is still the only gate: [drawImage] is
    called with [null] and [drawChar] ends in a [TypeError]. *)
Lemma drawChar_without_atlas window terminal char code width x y fg bold wd :
  _charAtlas (this wd) = None ->
  atlas_test code fg bold = true ->
  let out := drawChar CHAR_ATLAS_CELL_SPACING window terminal char code width x y fg bold wd in
  completion out = Throw TypeError /\
  existsb is_FillText (calls out) = false.
Proof.
  intros Hnull Htest out. unfold out.
  rewrite drawChar_outcome, Htest. cbn [completion calls].
  rewrite Hnull. split; [reflexivity |].
  rewrite existsb_app.
  destruct (clear_continuation_no_glyph (this wd) width x y) as [_ ->].
  reflexivity.
Qed.

(** C1. The colour slot is fg + 2 when fg < 256, 1 when fg >= 256 and
    bold, 0 otherwise; the atlas path is taken exactly when code < 256
    and either the slot is one of the sixteen basic slots with fg < 16 or
    fg >= 256, and the direct path otherwise; for code 65 and fg 5 the
    glyph is copied from slot 7 of the atlas, for code 65 and fg 200 it is
    drawn directly with fill colour ansi[200]. *)
Theorem drawChar_slot_and_path :
  forall window terminal char code width x y fg bold wd,
    let out := drawChar CHAR_ATLAS_CELL_SPACING window terminal char code width x y fg bold wd in
    let l := this wd in
    let slot := colorIndex fg bold in
    let eligible :=
      code < 256 /\ ((2 <= slot <= 17 /\ fg < 16) \/ fg >= 256) in
    ((fg < 256 -> slot = fg + 2) /\
     (fg >= 256 -> bold = true -> slot = 1) /\
     (fg >= 256 -> bold = false -> slot = 0)) /\
    (blits (calls out) <-> eligible) /\
    (draws_directly (calls out) <-> ~ eligible) /\
    (eligible ->
     calls out = clear_continuation l width x y
                 ++ [blit_call CHAR_ATLAS_CELL_SPACING l code slot x y]) /\
    calls (drawChar CHAR_ATLAS_CELL_SPACING window terminal char 65 width x y 5 bold wd)
      = clear_continuation l width x y
        ++ [blit_call CHAR_ATLAS_CELL_SPACING l 65 7 x y] /\
    calls (drawChar CHAR_ATLAS_CELL_SPACING window terminal char 65 width x y 200 bold wd)
      = clear_continuation l width x y
        ++ direct_draw_calls window terminal l
             (js_index (ansi (colors l)) 200) char width x y.
Proof.
  intros window terminal char code width x y fg bold wd out l slot eligible.
  split; [apply colorIndex_cases |].
  assert (Hcalls :
    calls out =
      clear_continuation l width x y ++
      (if atlas_test code fg bold
       then [blit_call CHAR_ATLAS_CELL_SPACING l code slot x y]
       else direct_draw_calls window terminal l
              (fill_style (colors l) fg) char width x y)).
  { unfold out. rewrite drawChar_outcome.
    destruct (atlas_test code fg bold); reflexivity. }
  pose proof (atlas_test_spec code fg bold) as Hspec.
  fold slot in Hspec. fold eligible in Hspec.
  destruct (clear_continuation_no_glyph l width x y) as [Hnd Hnf].
  assert (Hblit : existsb is_DrawImage (calls out) = atlas_test code fg bold).
  { rewrite Hcalls, existsb_app, Hnd.
    destruct (atlas_test code fg bold); reflexivity. }
  assert (Hfill :
    existsb is_FillText (calls out) = negb (atlas_test code fg bold)).
  { rewrite Hcalls, existsb_app, Hnf.
    destruct (atlas_test code fg bold); reflexivity. }
  unfold blits, draws_directly. rewrite Hblit, Hfill.
  split; [exact Hspec |].
  split; [rewrite negb_true_iff, <- not_true_iff_false; tauto |].
  split.
  { intros He. apply Hspec in He. now rewrite Hcalls, He. }
  split.
  - rewrite drawChar_outcome.
    assert (E : atlas_test 65 5 bold = true) by reflexivity.
    rewrite E. reflexivity.
  - rewrite drawChar_outcome.
    assert (E : atlas_test 65 200 bold = false) by reflexivity.
    rewrite E. reflexivity.
Qed.

(** C8. A glyph two cells wide: the one cell at (x + 1, y) is cleared
    first, and the glyph is drawn at (x, y) after it, on the atlas path
    and on the direct path alike; a glyph one cell wide clears nothing. *)
Theorem drawChar_wide_clears_continuation :
  forall window terminal char code x y fg bold wd,
    let l := this wd in
    (exists rest,
       calls (drawChar CHAR_ATLAS_CELL_SPACING window terminal char code 2 x y fg bold wd)
         = ClearRect ((x + 1) * scaledCharWidth l) (y * scaledLineHeight l)
                     (scaledCharWidth l) (scaledLineHeight l) :: rest /\
       existsb is_ClearRect rest = false /\
       (In (blit_call CHAR_ATLAS_CELL_SPACING l code (colorIndex fg bold) x y)
           rest \/
        In (FillText char (x * scaledCharWidth l)
                     (y * scaledLineHeight l + scaledLineDrawY l)) rest)) /\
    existsb is_ClearRect
      (calls (drawChar CHAR_ATLAS_CELL_SPACING window terminal char code 1 x y fg bold wd)) = false.
Proof.
  intros window terminal char code x y fg bold wd l.
  rewrite !drawChar_outcome. fold l.
  unfold clear_continuation. cbn [Z.eqb Pos.eqb].
  rewrite !Z.mul_1_l.
  split.
  - destruct (atlas_test code fg bold); cbn [calls app].
    + eexists. split; [reflexivity |]. split; [reflexivity |].
      left. now left.
    + eexists. split; [reflexivity |]. split; [reflexivity |].
      right. unfold direct_draw_calls. cbn [In]. tauto.
  - destruct (atlas_test code fg bold); reflexivity.
Qed.

(** C10. The inverted default colour (fg = -1): the colour slot is 1, the
    atlas test fails whatever the code, and the glyph is drawn directly,
    filled with the background colour. *)
Theorem drawChar_inverted_default :
  forall window terminal char code width x y bold wd,
    let out := drawChar CHAR_ATLAS_CELL_SPACING window terminal char code width x y
                         INVERTED_DEFAULT_COLOR bold wd in
    let l := this wd in
    colorIndex INVERTED_DEFAULT_COLOR bold = INVERTED_DEFAULT_COLOR + 2 /\
    colorIndex INVERTED_DEFAULT_COLOR bold = 1 /\
    atlas_test code INVERTED_DEFAULT_COLOR bold = false /\
    existsb is_DrawImage (calls out) = false /\
    completion out = Normal tt /\
    calls out = clear_continuation l width x y
                ++ direct_draw_calls window terminal l
                     (Some (background (colors l))) char width x y.
Proof.
  intros window terminal char code width x y bold wd out l.
  assert (Htest : atlas_test code INVERTED_DEFAULT_COLOR bold = false).
  { unfold atlas_test. cbn. apply andb_false_r. }
  assert (Hout :
    out = mkOutcome (Normal tt) wd
            (clear_continuation l width x y
             ++ direct_draw_calls window terminal l
                  (Some (background (colors l))) char width x y)).
  { unfold out. rewrite drawChar_outcome, Htest. reflexivity. }
  rewrite Hout. cbn [calls completion].
  repeat split; try reflexivity; try exact Htest.
  rewrite existsb_app.
  destruct (clear_continuation_no_glyph l width x y) as [-> _].
  reflexivity.
Qed.

(** *** Refreshing the atlas *)

(** Everything [_refreshCharAtlas] does.  The atlas is requested for the
    colours stored in the layer; the [colorSet] argument is not read. *)
Lemma refresh_world terminal colorSet wd :
  let l := this wd in
  let key := mkAtlasKey terminal (colors l)
                        (scaledCharWidth l) (scaledCharHeight l) in
  world (_refreshCharAtlas acquireCharAtlas terminal colorSet wd) =
    match acquireCharAtlas (atlasRequests wd) terminal (colors l)
                           (scaledCharWidth l) (scaledCharHeight l) with
    | Immediate canvas =>
        mkWorld (set_charAtlas (Some (HTMLCanvasElement canvas)) l)
                (atlasRequests wd ++ [key]) (registered wd)
    | Pending promise =>
        mkWorld (set_charAtlas None l)
                (atlasRequests wd ++ [key]) (registered wd ++ [promise])
    end.
Proof.
  destruct wd as [[cv cs w h lh dy at_] rq rg].
  run_js. split_js; reflexivity.
Qed.

Lemma onThemeChanged_request terminal colorSet wd :
  let l := this wd in
  let wd' := world (onThemeChanged acquireCharAtlas terminal colorSet wd) in
  atlasRequests wd' =
    atlasRequests wd
    ++ [mkAtlasKey terminal (colors l)
                   (scaledCharWidth l) (scaledCharHeight l)] /\
  colors (this wd') = colors l.
Proof.
  cbv zeta. unfold onThemeChanged. rewrite refresh_world.
  destruct (acquireCharAtlas _ _ _ _ _); split; reflexivity.
Qed.

Lemma quiet_keeps_atlas ev wd :
  quiet ev = true ->
  _charAtlas (this (world (handle acquireCharAtlas CHAR_ATLAS_CELL_SPACING ev wd))) = _charAtlas (this wd).
Proof.
  destruct wd as [[cv cs w h lh dy at_] rq rg].
  destruct ev; intros Hq; try discriminate Hq; run_js.
  all: try reflexivity.
  all: try (cbn [quiet negb] in Hq; subst).
  all: split_js; try reflexivity; try discriminate.
Qed.

Lemma run_quiet_keeps_atlas evs : forall wd,
  forallb quiet evs = true ->
  _charAtlas (this (run acquireCharAtlas CHAR_ATLAS_CELL_SPACING evs wd)) = _charAtlas (this wd).
Proof.
  induction evs as [| ev evs IH]; intros wd Hq.
  - reflexivity.
  - cbn [forallb] in Hq. apply andb_true_iff in Hq as [Hev Hrest].
    cbn [run]. rewrite IH by exact Hrest.
    now apply quiet_keeps_atlas.
Qed.

(** C3, as the code has it.  A refresh whose acquisition is pending
    leaves the layer without an atlas, whatever it held before, and the
    layer stays without one through every step that neither completes an
    acquisition nor starts a refresh. *)
Theorem refresh_pending_holds_no_atlas :
  forall terminal colorSet promise evs wd,
    acquireCharAtlas (atlasRequests wd) terminal (colors (this wd))
      (scaledCharWidth (this wd)) (scaledCharHeight (this wd))
      = Pending promise ->
    forallb quiet evs = true ->
    _charAtlas (this (run acquireCharAtlas CHAR_ATLAS_CELL_SPACING evs (world (_refreshCharAtlas acquireCharAtlas terminal colorSet wd))))
      = None.
Proof.
  intros terminal colorSet promise evs wd Hpending Hquiet.
  rewrite run_quiet_keeps_atlas by exact Hquiet.
  rewrite refresh_world. cbv zeta. rewrite Hpending. reflexivity.
Qed.

(** When a callback is registered on the promise, fulfilling it assigns
    the bitmap and consumes the callbacks of that promise. *)
Lemma fulfil_registered promise bitmap wd :
  In promise (registered wd) ->
  world (fulfil promise bitmap wd) =
    mkWorld (set_charAtlas (Some (ImageBitmap bitmap)) (this wd))
            (atlasRequests wd)
            (filter (fun p => negb (Nat.eqb promise p)) (registered wd)).
Proof.
  intros Hin. unfold fulfil.
  assert (E : existsb (Nat.eqb promise) (registered wd) = true).
  { apply existsb_exists. exists promise. split; [exact Hin |].
    apply Nat.eqb_refl. }
  rewrite E. reflexivity.
Qed.

Lemma still_registered (p q : nat) (l : list nat) :
  In q l -> p <> q ->
  In q (filter (fun r => negb (Nat.eqb p r)) l).
Proof.
  intros Hin Hne. apply filter_In. split; [exact Hin |].
  apply negb_true_iff. now apply Nat.eqb_neq.
Qed.

(** Two completions in a row, both awaited: the atlas of the second one
    to arrive is held. *)
Lemma fulfil_twice p q bp bq wd :
  In p (registered wd) -> In q (registered wd) -> p <> q ->
  _charAtlas (this (run acquireCharAtlas CHAR_ATLAS_CELL_SPACING [EvFulfil p bp; EvFulfil q bq] wd))
    = Some (ImageBitmap bq).
Proof.
  intros Hp Hq Hne. cbn [run handle].
  rewrite (fulfil_registered p bp wd Hp).
  rewrite fulfil_registered.
  - reflexivity.
  - cbn [registered]. now apply still_registered.
Qed.

(** A refresh either installs a canvas at once or leaves the layer
    without an atlas and registers one more callback. *)
Lemma request_cases ev wd :
  requests_atlas ev = true ->
  let wd' := world (handle acquireCharAtlas CHAR_ATLAS_CELL_SPACING ev wd) in
  (exists canvas,
     _charAtlas (this wd') = Some (HTMLCanvasElement canvas) /\
     registered wd' = registered wd) \/
  (exists promise,
     _charAtlas (this wd') = None /\
     registered wd' = registered wd ++ [promise]).
Proof.
  destruct wd as [[cv cs w h lh dy at_] rq rg].
  destruct ev; intros Hr; try discriminate Hr; run_js.
  all: try (cbn [requests_atlas] in Hr; subst).
  all: split_js; cbn [List.app]; eauto.
Qed.

Lemma app_one_not_two (l : list nat) (p p1 p2 : nat) :
  l ++ [p] <> l ++ [p1; p2].
Proof.
  intros H. apply app_inv_head in H. discriminate H.
Qed.

Lemma app_none_not_two (l : list nat) (p1 p2 : nat) :
  l <> l ++ [p1; p2].
Proof.
  intros H. apply (f_equal (@List.length nat)) in H.
  rewrite length_app in H. cbn in H. lia.
Qed.

(** C4, as the code has it.  Two refreshes are requested before either
    acquisition completes, the first waiting for promise p1 and the second
    for promise p2.  Until a completion arrives no atlas is held; after
    both completions the held atlas is the one delivered by the completion
    that arrived last: the second request's when the completions arrive in
    request order, the first request's when they arrive in the opposite
    order. *)
Theorem last_completion_wins :
  forall ev1 ev2 p1 p2 b1 b2 wd,
    requests_atlas ev1 = true ->
    requests_atlas ev2 = true ->
    let wd2 := run acquireCharAtlas CHAR_ATLAS_CELL_SPACING [ev1; ev2] wd in
    registered wd2 = registered wd ++ [p1; p2] ->
    p1 <> p2 ->
    _charAtlas (this wd2) = None /\
    _charAtlas (this (run acquireCharAtlas CHAR_ATLAS_CELL_SPACING
                          [EvFulfil p1 b1; EvFulfil p2 b2] wd2))
      = Some (ImageBitmap b2) /\
    _charAtlas (this (run acquireCharAtlas CHAR_ATLAS_CELL_SPACING
                          [EvFulfil p2 b2; EvFulfil p1 b1] wd2))
      = Some (ImageBitmap b1).
Proof.
  intros ev1 ev2 p1 p2 b1 b2 wd Hr1 Hr2 wd2 Hreg Hne.
  assert (Hnone : _charAtlas (this wd2) = None).
  { unfold wd2 in *. cbn [run] in *.
    pose proof (request_cases ev1 wd Hr1) as C1.
    pose proof (request_cases ev2
                  (world (handle acquireCharAtlas CHAR_ATLAS_CELL_SPACING
                                 ev1 wd)) Hr2) as C2.
    cbv zeta in C1, C2.
    destruct C2 as [(c2 & _ & R2) | (q & A2 & R2)]; [| exact A2].
    exfalso. rewrite R2 in Hreg.
    destruct C1 as [(c1 & _ & R1) | (q & _ & R1)]; rewrite R1 in Hreg.
    - exact (app_none_not_two _ _ _ Hreg).
    - exact (app_one_not_two _ _ _ _ Hreg). }
  assert (Hp1 : In p1 (registered wd2)).
  { rewrite Hreg, in_app_iff. cbn. tauto. }
  assert (Hp2 : In p2 (registered wd2)).
  { rewrite Hreg, in_app_iff. cbn. tauto. }
  split; [exact Hnone |].
  split.
  - now apply fulfil_twice.
  - apply fulfil_twice; try assumption. congruence.
Qed.

End Properties.

(** ** The properties at concrete inputs *)

(** The invariant of C7 on a layer that lives through [events_mixed]. *)
Lemma line_fits_invariant_witness :
  metrics_ok window0 terminal0 /\
  Forall resize_ok events_mixed /\
  let wd1 := world (resize acquire_pending window0 terminal0 560 360 true
                           world0) in
  scaledLineHeight (this wd1) >= scaledCharHeight (this wd1) /\
  scaledLineHeight (this (run acquire_pending 1 events_mixed wd1))
    >= scaledCharHeight (this (run acquire_pending 1 events_mixed wd1)).
Proof.
  assert (Hm : metrics_ok window0 terminal0).
  { repeat split; apply Qle_bool_imp_le; vm_compute; reflexivity. }
  assert (Hevs : Forall resize_ok events_mixed).
  { unfold events_mixed.
    repeat constructor; apply Qle_bool_imp_le; vm_compute; reflexivity. }
  split; [exact Hm |]. split; [exact Hevs |].
  exact (line_fits_invariant acquire_pending 1 window0 terminal0 560 360
           true events_mixed world0 Hm Hevs).
Defined.

(** The amended C3 on a layer that waits through [events_waiting]. *)
Lemma refresh_pending_holds_no_atlas_witness :
  acquire_pending (atlasRequests world_held) terminal0
    (colors (this world_held)) (scaledCharWidth (this world_held))
    (scaledCharHeight (this world_held)) = Pending 0 /\
  forallb quiet events_waiting = true /\
  _charAtlas
    (this (run acquire_pending 1 events_waiting
             (world (_refreshCharAtlas acquire_pending terminal0 theme_light
                                       world_held))))
    = None.
Proof.
  split; [reflexivity |]. split; [reflexivity |].
  apply (refresh_pending_holds_no_atlas acquire_pending 1 terminal0
           theme_light 0%nat events_waiting world_held);
    reflexivity.
Defined.

(** C3, as stated, fails: the layer held the bitmap 7; once the theme
    change has requested a new atlas and is waiting for promise 0, the
    layer holds nothing. *)
Lemma refresh_pending_drops_held_atlas :
  let wd1 := world (onThemeChanged acquire_pending terminal0 theme_light
                                   world_held) in
  _charAtlas (this world_held) = Some (ImageBitmap 7) /\
  registered wd1 = [0%nat] /\
  _charAtlas (this wd1) = None /\
  _charAtlas (this wd1) <> _charAtlas (this world_held).
Proof.
  cbv zeta. split; [reflexivity |]. split; [reflexivity |].
  split; [reflexivity |]. cbn. discriminate.
Qed.

(** The amended C4: a theme change, then a resize with a new character
    size, waiting for promises 0 and 1, completed with bitmaps 11 and 22. *)
Lemma last_completion_wins_witness :
  let ev1 := EvThemeChanged terminal0 theme_light in
  let ev2 := EvResize window0 terminal0 560 360 true in
  requests_atlas ev1 = true /\
  requests_atlas ev2 = true /\
  let wd2 := run acquire_pending 1 [ev1; ev2] world_held in
  registered wd2 = registered world_held ++ [0%nat; 1%nat] /\
  0%nat <> 1%nat /\
  _charAtlas (this wd2) = None /\
  _charAtlas (this (run acquire_pending 1 [EvFulfil 0 11; EvFulfil 1 22] wd2))
    = Some (ImageBitmap 22) /\
  _charAtlas (this (run acquire_pending 1 [EvFulfil 1 22; EvFulfil 0 11] wd2))
    = Some (ImageBitmap 11).
Proof.
  cbv zeta.
  split; [reflexivity |]. split; [reflexivity |].
  split; [reflexivity |]. split; [lia |].
  apply (last_completion_wins acquire_pending 1
           (EvThemeChanged terminal0 theme_light)
           (EvResize window0 terminal0 560 360 true)
           0%nat 1%nat 11%nat 22%nat world_held);
    [reflexivity | reflexivity | reflexivity | lia].
Defined.

(** C4, as stated, fails: promise 0 belongs to the first request and
    promise 1 to the second; the second completes with bitmap 22, then the
    first with bitmap 11, and the layer ends up holding bitmap 11. *)
Lemma stale_completion_overwrites :
  let wd2 := run acquire_pending 1
               [EvThemeChanged terminal0 theme_light;
                EvThemeChanged terminal0 theme_dark] world0 in
  registered wd2 = [0%nat; 1%nat] /\
  _charAtlas (this (run acquire_pending 1 [EvFulfil 1 22; EvFulfil 0 11] wd2))
    = Some (ImageBitmap 11) /\
  Some (ImageBitmap 11) <> Some (ImageBitmap 22).
Proof.
  cbv zeta. split; [reflexivity |]. split; [reflexivity |]. discriminate.
Qed.

(** C2 on the code: a theme change has dropped the atlas and waits for
    promise 0; 'A' in colour 5 passes the atlas test, and [drawChar] hands
    [null] to [drawImage]: the call ends in a [TypeError] and no glyph is
    drawn. *)
Lemma drawChar_null_atlas_throws :
  let wd1 := world (onThemeChanged acquire_pending terminal0 theme_light
                                   world_held) in
  let out := drawChar 1 window0 terminal0 "A" 65 1 0 0 5 false wd1 in
  _charAtlas (this wd1) = None /\
  atlas_test 65 5 false = true /\
  completion out = Throw TypeError /\
  calls out = [DrawImage None 975 217 14 30 0 8 14 30] /\
  ~ draws_directly (calls out).
Proof.
  cbv zeta. split; [reflexivity |]. split; [reflexivity |].
  split; [reflexivity |]. split; [reflexivity |].
  unfold draws_directly. cbn. discriminate.
Qed.

(** C5 on the code: the layer was built with the dark theme; told that
    the theme changed to the light one, it drops its atlas and requests a
    new one for the dark theme. *)
Lemma onThemeChanged_ignores_colorSet :
  let wd1 := world (onThemeChanged acquire_pending terminal0 theme_light
                                   world_held) in
  _charAtlas (this wd1) = None /\
  atlasRequests wd1 = [mkAtlasKey terminal0 theme_dark 14 30] /\
  map key_colors (atlasRequests wd1) <> [theme_light].
Proof.
  cbv zeta. split; [reflexivity |]. split; [reflexivity |].
  cbn. discriminate.
Qed.

(** ** Further properties of the layer *)

Section Lifecycle.

Variable acquireCharAtlas :
  list AtlasKey -> ITerminal -> IColorSet -> Z -> Z -> AcquireResult.

Variable CHAR_ATLAS_CELL_SPACING : Z.

Lemma run_app evs1 : forall evs2 wd,
  run acquireCharAtlas CHAR_ATLAS_CELL_SPACING (evs1 ++ evs2) wd =
  run acquireCharAtlas CHAR_ATLAS_CELL_SPACING evs2
      (run acquireCharAtlas CHAR_ATLAS_CELL_SPACING evs1 wd).
Proof.
  induction evs1 as [| ev evs1 IH]; intros evs2 wd.
  - reflexivity.
  - cbn [List.app run]. apply IH.
Qed.

Lemma app_none_not_one (l : list nat) (p : nat) : l ++ [p] <> l.
Proof.
  intros H. apply (f_equal (@List.length nat)) in H.
  rewrite length_app in H. cbn in H. lia.
Qed.

(** *** What an operation can write *)

Lemma handle_keeps_state ev wd :
  keeps_state ev = true ->
  world (handle acquireCharAtlas CHAR_ATLAS_CELL_SPACING ev wd) = wd.
Proof.
  destruct wd as [[cv cs w h lh dy at_] rq rg].
  destruct ev; intros Hk; try discriminate Hk; run_js.
  all: try reflexivity.
  all: split_js; reflexivity.
Qed.

(** X1. The operations that only draw or notify (the six hooks, the fill,
    stroke and clear primitives, [fillCharTrueColor] and [drawChar], also
    when [drawChar] ends in an exception) leave every field of the layer,
    the list of atlas requests and the registered callbacks as they
    were. *)
Theorem drawing_keeps_state :
  forall evs wd,
    forallb keeps_state evs = true ->
    run acquireCharAtlas CHAR_ATLAS_CELL_SPACING evs wd = wd.
Proof.
  induction evs as [| ev evs IH]; intros wd Hall.
  - reflexivity.
  - cbn [forallb] in Hall. apply andb_true_iff in Hall as [Hev Hrest].
    cbn [run]. rewrite handle_keeps_state by exact Hev.
    now apply IH.
Qed.

Lemma handle_normal ev wd :
  (forall window terminal char code width x y fg bold,
      ev <> EvDrawChar window terminal char code width x y fg bold) ->
  completion (handle acquireCharAtlas CHAR_ATLAS_CELL_SPACING ev wd)
  = Normal tt.
Proof.
  destruct wd as [[cv cs w h lh dy at_] rq rg].
  destruct ev; intros Hne; run_js.
  all: try reflexivity.
  all: try (exfalso; eapply Hne; reflexivity).
  all: split_js; reflexivity.
Qed.

(** X2. An operation ends in an exception exactly when it is a [drawChar]
    call whose code and colour pass the atlas test while the layer holds
    no atlas; the exception is the [TypeError] of [drawImage].  Every
    other call of every method, and every completion of a promise, ends
    normally. *)
Theorem throws_only_without_atlas :
  forall ev wd,
    let out := handle acquireCharAtlas CHAR_ATLAS_CELL_SPACING ev wd in
    let faulty :=
      _charAtlas (this wd) = None /\
      exists window terminal char code width x y fg bold,
        ev = EvDrawChar window terminal char code width x y fg bold /\
        atlas_test code fg bold = true in
    (completion out = Throw TypeError <-> faulty) /\
    (completion out = Normal tt <-> ~ faulty).
Proof.
  intros ev wd out faulty.
  assert (Hcases :
    (completion out = Throw TypeError /\ faulty) \/
    (completion out = Normal tt /\ ~ faulty)).
  { unfold out, faulty.
    destruct ev;
      try (right; split;
           [ apply handle_normal; intros; discriminate
           | intros (_ & ? & ? & ? & ? & ? & ? & ? & ? & ? & Hev & _);
             discriminate Hev ]).
    cbn [handle]. rewrite drawChar_outcome.
    destruct (atlas_test code fg bold) eqn:Htest; cbn [completion].
    - destruct (_charAtlas (this wd)) eqn:Hat.
      + right. split; [reflexivity |]. intros (Hnull & _). discriminate Hnull.
      + left. split; [reflexivity |]. split; [reflexivity |].
        do 9 eexists. split; [reflexivity | exact Htest].
    - right. split; [reflexivity |].
      intros (_ & ? & ? & ? & ? & ? & ? & ? & ? & ? & Hev & Ht).
      injection Hev as <- <- <- <- <- <- <- <- <-. congruence. }
  destruct Hcases as [(Hc & Hf) | (Hc & Hf)]; rewrite Hc; split; split;
    try tauto; try discriminate; intros; try reflexivity; try contradiction.
Qed.

(** *** The colours and the requests *)

Lemma handle_requests ev wd :
  let wd' := world (handle acquireCharAtlas CHAR_ATLAS_CELL_SPACING ev wd) in
  colors (this wd') = colors (this wd) /\
  exists new,
    atlasRequests wd' = atlasRequests wd ++ new /\
    Forall (fun k => key_colors k = colors (this wd)) new /\
    List.length new = if requests_atlas ev then 1%nat else 0%nat.
Proof.
  destruct wd as [[cv cs w h lh dy at_] rq rg].
  destruct ev; step_js; cbn [requests_atlas]; case_js.
  all: split; [reflexivity |].
  all: try (exists []; rewrite app_nil_r; repeat split; constructor).
  all: eexists; split; [reflexivity |];
       split; [repeat constructor | reflexivity].
Qed.

(** X3. No operation writes [colors]: after any sequence of operations
    the layer has the colours it was constructed with, and every atlas
    request made on the way carries those colours, whatever colour sets
    the theme changes announced. *)
Theorem colors_never_change :
  forall evs wd,
    let wd' := run acquireCharAtlas CHAR_ATLAS_CELL_SPACING evs wd in
    colors (this wd') = colors (this wd) /\
    exists new,
      atlasRequests wd' = atlasRequests wd ++ new /\
      Forall (fun k => key_colors k = colors (this wd)) new.
Proof.
  induction evs as [| ev evs IH]; intros wd; cbv zeta.
  - split; [reflexivity |]. exists []. now rewrite app_nil_r.
  - cbn [run].
    destruct (handle_requests ev wd) as (Hc & new1 & Hr & Hk & _).
    destruct (IH (world (handle acquireCharAtlas CHAR_ATLAS_CELL_SPACING
                                ev wd))) as (Hc2 & new2 & Hr2 & Hk2).
    split; [congruence |].
    exists (new1 ++ new2). split.
    + rewrite Hr2, Hr. now rewrite app_assoc.
    + apply Forall_app. split; [exact Hk |].
      rewrite Hc in Hk2. exact Hk2.
Qed.

(** X4. The atlas module is called once for every theme change and every
    resize that reports a new character size, and by nothing else. *)
Theorem one_request_per_refresh :
  forall evs wd,
    List.length
      (atlasRequests (run acquireCharAtlas CHAR_ATLAS_CELL_SPACING evs wd))
    = (List.length (atlasRequests wd)
       + List.length (filter requests_atlas evs))%nat.
Proof.
  induction evs as [| ev evs IH]; intros wd.
  - cbn. lia.
  - cbn [run filter]. rewrite IH.
    destruct (handle_requests ev wd) as (_ & new & Hr & _ & Hlen).
    rewrite Hr, length_app, Hlen.
    destruct (requests_atlas ev); cbn [List.length]; lia.
Qed.

(** *** Completions and synchronous acquisitions *)

Lemma handle_keeps_registration p ev wd :
  In p (registered wd) ->
  fulfils p ev = false ->
  In p (registered
          (world (handle acquireCharAtlas CHAR_ATLAS_CELL_SPACING ev wd))).
Proof.
  destruct wd as [[cv cs w h lh dy at_] rq rg].
  destruct ev; intros Hin Hf; step_js; case_js.
  all: try exact Hin.
  all: try (apply in_or_app; left; exact Hin).
  cbn [fulfils] in Hf. apply Nat.eqb_neq in Hf.
  apply still_registered; [exact Hin | congruence].
Qed.

Lemma run_keeps_registration p evs : forall wd,
  In p (registered wd) ->
  forallb (fun ev => negb (fulfils p ev)) evs = true ->
  In p (registered (run acquireCharAtlas CHAR_ATLAS_CELL_SPACING evs wd)).
Proof.
  induction evs as [| ev evs IH]; intros wd Hin Hall.
  - exact Hin.
  - cbn [forallb] in Hall. apply andb_true_iff in Hall as [Hev Hrest].
    cbn [run]. apply IH; [| exact Hrest].
    apply handle_keeps_registration; [exact Hin |].
    now apply negb_true_iff.
Qed.

(** X5. A completion callback is never withdrawn.  Once the layer waits
    for a promise, whatever happens before the promise is fulfilled (draws,
    resizes, further refreshes, also ones that install an atlas at once,
    completions of other promises), the bitmap of that promise becomes the
    held atlas when it arrives. *)
Theorem awaited_completion_lands :
  forall promise bitmap evs wd,
    In promise (registered wd) ->
    forallb (fun ev => negb (fulfils promise ev)) evs = true ->
    _charAtlas
      (this (run acquireCharAtlas CHAR_ATLAS_CELL_SPACING
                 (evs ++ [EvFulfil promise bitmap]) wd))
      = Some (ImageBitmap bitmap).
Proof.
  intros promise bitmap evs wd Hin Hall.
  rewrite run_app. cbn [run handle].
  rewrite fulfil_registered; [reflexivity |].
  now apply run_keeps_registration.
Qed.

Lemma handle_holds_atlas ev wd :
  (forall earlier terminal cs w h,
      is_immediate (acquireCharAtlas earlier terminal cs w h) = true) ->
  _charAtlas (this wd) <> None \/ requests_atlas ev = true ->
  _charAtlas
    (this (world (handle acquireCharAtlas CHAR_ATLAS_CELL_SPACING ev wd)))
    <> None.
Proof.
  intros Hsync Hor.
  destruct wd as [[cv cs w h lh dy at_] rq rg].
  destruct (requests_atlas ev) eqn:Hreq.
  - clear Hor.
    destruct ev; try discriminate Hreq; step_js.
    all: try (cbn [requests_atlas] in Hreq; subst; step_js).
    all: match goal with
         | |- context [acquireCharAtlas ?a ?b ?c ?d ?e] =>
             pose proof (Hsync a b c d e) as Hi;
             destruct (acquireCharAtlas a b c d e);
             [| discriminate Hi]
         end.
    all: step_js; discriminate.
  - destruct Hor as [Hheld | Hr]; [| discriminate Hr].
    destruct ev; try discriminate Hreq; revert Hheld; step_js; case_js;
      intros Hheld; try exact Hheld; try discriminate.
Qed.

Lemma run_holds_atlas evs : forall wd,
  (forall earlier terminal cs w h,
      is_immediate (acquireCharAtlas earlier terminal cs w h) = true) ->
  _charAtlas (this wd) <> None ->
  _charAtlas (this (run acquireCharAtlas CHAR_ATLAS_CELL_SPACING evs wd))
    <> None.
Proof.
  induction evs as [| ev evs IH]; intros wd Hsync Hheld.
  - exact Hheld.
  - cbn [run]. apply IH; [exact Hsync |].
    apply handle_holds_atlas; [exact Hsync | now left].
Qed.

(** X6. With an atlas module that always answers at once, a layer that
    has been refreshed holds an atlas from then on, through every later
    operation, and no [drawChar] call on it ends in an exception. *)
Theorem synchronous_atlas_always_held :
  forall ev evs window terminal char code width x y fg bold wd,
    (forall earlier terminal cs w h,
        is_immediate (acquireCharAtlas earlier terminal cs w h) = true) ->
    requests_atlas ev = true ->
    let wd' := run acquireCharAtlas CHAR_ATLAS_CELL_SPACING (ev :: evs) wd in
    _charAtlas (this wd') <> None /\
    completion (drawChar CHAR_ATLAS_CELL_SPACING window terminal char code
                         width x y fg bold wd') = Normal tt.
Proof.
  intros ev evs window terminal char code width x y fg bold wd Hsync Hreq wd'.
  assert (Hheld : _charAtlas (this wd') <> None).
  { unfold wd'. cbn [run]. apply run_holds_atlas; [exact Hsync |].
    apply handle_holds_atlas; [exact Hsync | now right]. }
  split; [exact Hheld |].
  rewrite drawChar_outcome.
  destruct (atlas_test code fg bold); cbn [completion]; [| reflexivity].
  destruct (_charAtlas (this wd')); [reflexivity | contradiction].
Qed.

(** X7. A resize that reports a new character size computes the new cell
    size first and requests the atlas for it: the request carries the
    width and height the layer has after the call. *)
Theorem resize_requests_new_size :
  forall window terminal canvasWidth canvasHeight wd,
    let wd' := world (resize acquireCharAtlas window terminal canvasWidth
                             canvasHeight true wd) in
    atlasRequests wd' =
      atlasRequests wd
      ++ [mkAtlasKey terminal (colors (this wd))
            (scaledCharWidth (this wd')) (scaledCharHeight (this wd'))] /\
    scaledCharWidth (this wd')
      = Qceiling (js_mul (cm_width (charMeasure terminal))
                         (devicePixelRatio window)) /\
    scaledCharHeight (this wd')
      = Qceiling (js_mul (cm_height (charMeasure terminal))
                         (devicePixelRatio window)).
Proof.
  intros window terminal cw ch wd wd'.
  destruct (resize_heights acquireCharAtlas window terminal cw ch true wd)
    as (Hw & Hh & _ & _).
  fold wd' in Hw, Hh.
  split; [| split; [exact Hw | exact Hh]].
  rewrite Hw, Hh. unfold wd'.
  destruct wd as [[cv cs w h lh dy at_] rq rg].
  step_js. case_js; reflexivity.
Qed.

End Lifecycle.

Section Drawing.

Variable acquireCharAtlas :
  list AtlasKey -> ITerminal -> IColorSet -> Z -> Z -> AcquireResult.

Variable CHAR_ATLAS_CELL_SPACING : Z.

(** *** The geometry [resize] computes *)

Lemma resize_glyph_in_line window terminal cw ch csc wd :
  metrics_ok window terminal ->
  glyph_in_line
    (this (world (resize acquireCharAtlas window terminal cw ch csc wd))).
Proof.
  intros (Hh & Hr & Hm).
  destruct (resize_heights acquireCharAtlas window terminal cw ch csc wd)
    as (_ & Hch & Hlh & Hdy).
  unfold glyph_in_line. rewrite Hch, Hlh, Hdy.
  set (h := Math_ceil (js_mul (cm_height (charMeasure terminal))
                              (devicePixelRatio window))).
  set (lh := Math_floor (js_mul (inject_Z h) (lineHeight (options terminal)))).
  assert (H0 : 0 <= h).
  { apply Math_ceil_nonneg. now apply js_mul_nonneg. }
  assert (Hfit : h <= lh).
  { apply Math_floor_scale; [apply Math_ceil_is_double | exact Hm | exact H0]. }
  destruct (Qeq_bool (lineHeight (options terminal)) 1); [lia |].
  pose proof (Math_round_half (lh - h)). lia.
Qed.

Lemma handle_keeps_geometry ev wd :
  is_resize ev = false ->
  geometry
    (this (world (handle acquireCharAtlas CHAR_ATLAS_CELL_SPACING ev wd)))
  = geometry (this wd).
Proof.
  destruct wd as [[cv cs w h lh dy at_] rq rg].
  destruct ev; intros Hr; try discriminate Hr; run_js.
  all: try reflexivity.
  all: split_js; reflexivity.
Qed.

Lemma handle_glyph_in_line ev wd :
  resize_ok ev -> glyph_in_line (this wd) ->
  glyph_in_line
    (this (world (handle acquireCharAtlas CHAR_ATLAS_CELL_SPACING ev wd))).
Proof.
  intros Hok Hin.
  destruct (is_resize ev) eqn:E.
  - destruct ev; try discriminate E. now apply resize_glyph_in_line.
  - pose proof (handle_keeps_geometry ev wd E) as Hg.
    unfold geometry in Hg. injection Hg as _ Hh Hlh Hdy.
    unfold glyph_in_line in *. now rewrite Hh, Hlh, Hdy.
Qed.

(** X9. After a resize with sound measurements the glyph box sits inside
    the line box: 0 <= scaledLineDrawY and
    scaledLineDrawY + scaledCharHeight <= scaledLineHeight; and this
    stays so through every later operation. *)
Theorem glyph_stays_in_line :
  forall window terminal canvasWidth canvasHeight charSizeChanged evs wd,
    metrics_ok window terminal ->
    Forall resize_ok evs ->
    glyph_in_line
      (this (run acquireCharAtlas CHAR_ATLAS_CELL_SPACING evs
                 (world (resize acquireCharAtlas window terminal
                                canvasWidth canvasHeight charSizeChanged
                                wd)))).
Proof.
  intros window terminal cw ch csc evs wd Hm Hevs.
  pose proof (resize_glyph_in_line window terminal cw ch csc wd Hm) as H.
  revert H.
  generalize (world (resize acquireCharAtlas window terminal cw ch csc wd)).
  induction Hevs as [| ev evs Hev _ IH]; intros wd1 H1.
  - exact H1.
  - cbn [run]. apply IH. now apply handle_glyph_in_line.
Qed.

Lemma canvas_dimension_spec (default v : Z) :
  0 <= default <= 2147483647 ->
  0 <= canvas_dimension default v <= 2147483647 /\
  (0 <= v <= 2147483647 -> canvas_dimension default v = v) /\
  (- 2147483648 <= v < 0 -> canvas_dimension default v = default).
Proof.
  intros Hd. unfold canvas_dimension. cbv zeta.
  change (2 ^ 32) with 4294967296.
  destruct (Z.leb_spec (v mod 4294967296) 2147483647) as [Hle | Hgt];
    repeat split; intros; try lia;
    Z.div_mod_to_equations; lia.
Qed.

(** X10. [resize] gives the canvas bitmap the rounded products of the
    logical sizes and the device pixel ratio when they fit an unsigned
    long up to 2147483647; a negative rounded product leaves the default
    size, 300 or 150.  The bitmap size is always in that range, the style
    keeps the logical sizes, and [clearAll] afterwards clears exactly the
    bitmap. *)
Theorem resize_sizes_canvas :
  forall window terminal canvasWidth canvasHeight charSizeChanged wd,
    let wd' := world (resize acquireCharAtlas window terminal canvasWidth
                             canvasHeight charSizeChanged wd) in
    let c := _canvas (this wd') in
    let r := devicePixelRatio window in
    let W := Math_round (js_mul canvasWidth r) in
    let H := Math_round (js_mul canvasHeight r) in
    0 <= cv_width c <= 2147483647 /\
    0 <= cv_height c <= 2147483647 /\
    (0 <= W <= 2147483647 -> cv_width c = W) /\
    (0 <= H <= 2147483647 -> cv_height c = H) /\
    (- 2147483648 <= W < 0 -> cv_width c = 300) /\
    (- 2147483648 <= H < 0 -> cv_height c = 150) /\
    style_width c = canvasWidth /\
    style_height c = canvasHeight /\
    calls (clearAll wd') = [ClearRect 0 0 (cv_width c) (cv_height c)].
Proof.
  intros window terminal cw ch csc wd wd' c r W H.
  assert (Hc : c = mkCanvas (canvas_dimension 300 W) (canvas_dimension 150 H)
                            cw ch).
  { unfold c, wd', W, H, r.
    destruct wd as [[cv cs w h lh dy at_] rq rg].
    destruct csc; run_js; split_js; reflexivity. }
  destruct (canvas_dimension_spec 300 W ltac:(lia)) as (Hw1 & Hw2 & Hw3).
  destruct (canvas_dimension_spec 150 H ltac:(lia)) as (Hh1 & Hh2 & Hh3).
  assert (Hclear :
    calls (clearAll wd') = [ClearRect 0 0 (cv_width c) (cv_height c)]).
  { unfold c. destruct wd' as [[cv' ? ? ? ? ? ?] ? ?]. reflexivity. }
  rewrite Hclear. rewrite Hc. cbn [cv_width cv_height style_width style_height].
  repeat split; try assumption; try lia.
Qed.

(** *** The cell primitives *)

(** X11. Cell rectangles tile the canvas: the rectangle [clearCells]
    clears for w1 + w2 columns is the rectangle for the first w1 columns
    followed, edge to edge, by the rectangle for the next w2 columns, and
    likewise for rows; [fillCells] fills the very rectangle [clearCells]
    clears. *)
Theorem cell_rectangles_tile :
  forall x y w1 w2 h1 h2 wd,
  exists px py pw1 pw2 ph1 ph2,
    calls (clearCells x y w1 h1 wd) = [ClearRect px py pw1 ph1] /\
    calls (clearCells (x + w1) y w2 h1 wd)
      = [ClearRect (px + pw1) py pw2 ph1] /\
    calls (clearCells x (y + h1) w1 h2 wd)
      = [ClearRect px (py + ph1) pw1 ph2] /\
    calls (clearCells x y (w1 + w2) (h1 + h2) wd)
      = [ClearRect px py (pw1 + pw2) (ph1 + ph2)] /\
    calls (fillCells x y w1 h1 wd)
      = [FillRect (inject_Z px) (inject_Z py) (inject_Z pw1)
                  (inject_Z ph1)].
Proof.
  intros x y w1 w2 h1 h2 wd.
  destruct wd as [[cv cs w h lh dy at_] rq rg].
  step_js.
  exists (x * w), (y * lh), (w1 * w), (w2 * w), (h1 * lh), (h2 * lh).
  rewrite !Z.mul_add_distr_r. repeat split.
Qed.

Lemma fillCharTrueColor_calls window terminal charData x y wd :
  let l := this wd in
  calls (fillCharTrueColor window terminal charData x y wd)
    = [ SetFont (js_mul (fontSize (options terminal))
                        (devicePixelRatio window))
                (fontFamily (options terminal));
        SetTextBaseline "top";
        BeginPath;
        Rect (x * scaledCharWidth l)
             (y * scaledLineHeight l + scaledLineDrawY l)
             (cd_width charData * scaledCharWidth l)
             (scaledCharHeight l);
        Clip;
        FillText (cd_char charData) (x * scaledCharWidth l)
                 (y * scaledCharHeight l) ].
Proof.
  destruct wd as [[cv cs w h lh dy at_] rq rg]. reflexivity.
Qed.

(** X14. [fillCharTrueColor] clips to the glyph box of the cell but puts
    the text at y * scaledCharHeight: the clip box starts
    y * (scaledLineHeight - scaledCharHeight) + scaledLineDrawY pixels
    below the text origin.  Unlike [_drawUncachedChar] it neither saves
    nor restores the context and sets no fill style. *)
Theorem fillCharTrueColor_offset :
  forall window terminal charData x y wd,
    let l := this wd in
    exists px cy ty,
      calls (fillCharTrueColor window terminal charData x y wd)
        = [ SetFont (js_mul (fontSize (options terminal))
                            (devicePixelRatio window))
                    (fontFamily (options terminal));
            SetTextBaseline "top";
            BeginPath;
            Rect px cy (cd_width charData * scaledCharWidth l)
                 (scaledCharHeight l);
            Clip;
            FillText (cd_char charData) px ty ] /\
      px = x * scaledCharWidth l /\
      cy - ty
        = y * (scaledLineHeight l - scaledCharHeight l) + scaledLineDrawY l.
Proof.
  intros window terminal charData x y wd l.
  rewrite fillCharTrueColor_calls. fold l.
  do 3 eexists. split; [reflexivity |]. split; [reflexivity |]. ring.
Qed.

(** X15. With a line height option of 1, after [resize] the text of
    [fillCharTrueColor] starts at the corner of its clip box, in every
    row. *)
Theorem fillCharTrueColor_aligned_when_plain :
  forall window terminal canvasWidth canvasHeight charSizeChanged
         window' terminal' charData x y wd,
    Qeq_bool (lineHeight (options terminal)) 1 = true ->
    let wd' := world (resize acquireCharAtlas window terminal canvasWidth
                             canvasHeight charSizeChanged wd) in
    exists px py w h,
      In (Rect px py w h)
         (calls (fillCharTrueColor window' terminal' charData x y wd')) /\
      In (FillText (cd_char charData) px py)
         (calls (fillCharTrueColor window' terminal' charData x y wd')).
Proof.
  intros window terminal cw ch csc window' terminal' charData x y wd Hone wd'.
  rewrite fillCharTrueColor_calls.
  destruct (resize_heights acquireCharAtlas window terminal cw ch csc wd)
    as (_ & Hch & Hlh & Hdy).
  fold wd' in Hch, Hlh, Hdy.
  rewrite Hone in Hdy.
  assert (Heq : scaledLineHeight (this wd') = scaledCharHeight (this wd')).
  { rewrite Hlh, Hch.
    apply Math_floor_unit; [apply Math_ceil_is_double | exact Hone]. }
  rewrite Heq, Hdy, Z.add_0_r.
  do 4 eexists. split; cbn [In]; tauto.
Qed.

(** *** Where [drawChar] paints *)

(** X16. When the glyph box sits inside the line box, the cells are not
    of negative width and the glyph is at least one cell wide, everything
    [drawChar] paints lies in the [width] cells that start at cell
    (x, y): the cell it clears for a wide glyph, the destination of the
    atlas copy, and the text of a direct draw, which is drawn under a
    clip to the glyph box set up in the same [save]; and this whatever
    clipping region, path and saved states the context has when
    [drawChar] is called. *)
Theorem drawChar_paints_within :
  forall window terminal char code width x y fg bold wd clip path saved,
    glyph_in_line (this wd) ->
    0 <= scaledCharWidth (this wd) ->
    1 <= width ->
    Forall (region_in_cells (this wd) x y width)
      (painted clip path saved
         (calls (drawChar CHAR_ATLAS_CELL_SPACING window terminal char code
                          width x y fg bold wd))).
Proof.
  intros window terminal char code width x y fg bold wd clip path saved
         (Hdy & Hfit) Hw Hwd.
  rewrite drawChar_outcome.
  unfold clear_continuation, blit_call, direct_draw_calls.
  destruct (atlas_test code fg bold); cbn [calls];
    destruct (Z.eqb_spec width 2) as [-> | Hne];
    cbn [List.app painted];
    repeat constructor; cbn [region_in_cells]; unfold in_cells; nia.
Qed.

(** X17. Glyphs of different codes, and of different colour slots, are
    copied from atlas cells that do not overlap: with a spacing that is
    not negative, the source box of the smaller code ends before the
    source box of the larger one starts, and likewise for the slots. *)
Theorem atlas_sources_disjoint :
  forall window terminal char1 char2 code1 code2 width1 width2
         x1 y1 x2 y2 fg1 fg2 bold1 bold2 wd
         i1 sx1 sy1 sw1 sh1 dx1 dy1 dw1 dh1
         i2 sx2 sy2 sw2 sh2 dx2 dy2 dw2 dh2,
    0 <= CHAR_ATLAS_CELL_SPACING ->
    0 <= scaledCharWidth (this wd) ->
    0 <= scaledCharHeight (this wd) ->
    In (DrawImage i1 sx1 sy1 sw1 sh1 dx1 dy1 dw1 dh1)
       (calls (drawChar CHAR_ATLAS_CELL_SPACING window terminal char1 code1
                        width1 x1 y1 fg1 bold1 wd)) ->
    In (DrawImage i2 sx2 sy2 sw2 sh2 dx2 dy2 dw2 dh2)
       (calls (drawChar CHAR_ATLAS_CELL_SPACING window terminal char2 code2
                        width2 x2 y2 fg2 bold2 wd)) ->
    (code1 < code2 -> sx1 + sw1 <= sx2) /\
    (colorIndex fg1 bold1 < colorIndex fg2 bold2 -> sy1 + sh1 <= sy2).
Proof.
  intros window terminal char1 char2 code1 code2 width1 width2
         x1 y1 x2 y2 fg1 fg2 bold1 bold2 wd
         i1 sx1 sy1 sw1 sh1 dx1 dy1 dw1 dh1
         i2 sx2 sy2 sw2 sh2 dx2 dy2 dw2 dh2 Hsp Hw Hh H1 H2.
  assert (Hblit : forall char code width x y fg bold i sx sy sw sh dx dy dw dh,
    In (DrawImage i sx sy sw sh dx dy dw dh)
       (calls (drawChar CHAR_ATLAS_CELL_SPACING window terminal char code
                        width x y fg bold wd)) ->
    sx = code * (scaledCharWidth (this wd) + CHAR_ATLAS_CELL_SPACING) /\
    sy = colorIndex fg bold
         * (scaledCharHeight (this wd) + CHAR_ATLAS_CELL_SPACING) /\
    sw = scaledCharWidth (this wd) /\ sh = scaledCharHeight (this wd)).
  { intros char code width x y fg bold i sx sy sw sh dx dy dw dh Hin.
    rewrite drawChar_outcome in Hin.
    destruct (atlas_test code fg bold); cbn [calls] in Hin;
      apply in_app_or in Hin; destruct Hin as [Hin | Hin].
    - unfold clear_continuation in Hin.
      destruct (width =? 2); cbn in Hin; [| contradiction].
      destruct Hin as [Hin | []]. discriminate Hin.
    - destruct Hin as [Hin | []]. unfold blit_call in Hin.
      injection Hin as <- <- <- <- <- <- <- <- <-. repeat split.
    - unfold clear_continuation in Hin.
      destruct (width =? 2); cbn in Hin; [| contradiction].
      destruct Hin as [Hin | []]. discriminate Hin.
    - unfold direct_draw_calls in Hin. cbn [In] in Hin.
      repeat (destruct Hin as [Hin | Hin]; [discriminate Hin |]).
      contradiction. }
  apply Hblit in H1 as (-> & -> & -> & ->).
  apply Hblit in H2 as (-> & -> & _ & _).
  split; intros; nia.
Qed.

(** X18. Every method except [fillCharTrueColor], [strokeRectAtCell] and
    [resize] hands the context back as it got it: each [save] it issues is
    closed by a [restore], and font, text baseline, fill style, line width
    and clipping region are written only in between.  The first two write
    the context state for their caller; [resize] assigns the width and the
    height of the canvas, which resets the context. *)
Theorem context_state_is_bracketed :
  forall ev wd,
    bracketed 0
      (calls (handle acquireCharAtlas CHAR_ATLAS_CELL_SPACING ev wd))
    = negb (changes_context ev).
Proof.
  intros ev wd.
  destruct wd as [[cv cs w h lh dy at_] rq rg].
  destruct ev; step_js; case_js; reflexivity.
Qed.

(** X19. With the 256 ansi colours in place, [drawChar] sets an undefined
    fill style exactly for the colour indices below the inverted-default
    sentinel -1: such an index passes neither the atlas test nor the
    sentinel test, and [ansi[fg]] is read outside the array. *)
Theorem undefined_fill_style_below_sentinel :
  forall window terminal char code width x y fg bold wd,
    List.length (ansi (colors (this wd))) = 256%nat ->
    (In (SetFillStyle None)
        (calls (drawChar CHAR_ATLAS_CELL_SPACING window terminal char code
                         width x y fg bold wd))
     <-> fg < INVERTED_DEFAULT_COLOR).
Proof.
  intros window terminal char code width x y fg bold wd Hlen.
  rewrite drawChar_outcome. unfold INVERTED_DEFAULT_COLOR.
  assert (Hclear : ~ In (SetFillStyle None)
                        (clear_continuation (this wd) width x y)).
  { unfold clear_continuation. destruct (width =? 2); cbn; [| tauto].
    intros [H | []]. discriminate H. }
  assert (Hstyle : fill_style (colors (this wd)) fg = None <-> fg < -1).
  { unfold fill_style, INVERTED_DEFAULT_COLOR, js_index.
    destruct (Z.eqb_spec fg (-1)); [split; [discriminate | lia] |].
    destruct (Z.ltb_spec fg 256); [| split; [discriminate | lia]].
    destruct (Z.ltb_spec fg 0); [split; [lia | reflexivity] |].
    rewrite nth_error_None, Hlen. lia. }
  destruct (atlas_test code fg bold) eqn:Htest; cbn [calls];
    rewrite in_app_iff.
  - apply atlas_test_spec in Htest. unfold colorIndex in Htest.
    split.
    + intros [H | [H | []]]; [contradiction | discriminate H].
    + destruct (Z.ltb_spec fg 256); lia.
  - rewrite <- Hstyle. unfold direct_draw_calls. cbn [In].
    split.
    + intros [H | H]; [contradiction |].
      repeat (destruct H as [H | H]; try discriminate H).
      * now injection H.
      * contradiction.
    + intros ->. right. tauto.
Qed.

End Drawing.

(** ** The further properties at concrete inputs *)

(** Draws on a layer that holds no atlas, among them one that ends in an
    exception, leave it as it was. *)
Lemma drawing_keeps_state_witness :
  forallb keeps_state events_drawing = true /\
  run acquire_pending 1 events_drawing world_waiting = world_waiting.
Proof.
  split; [reflexivity |].
  apply (drawing_keeps_state acquire_pending 1 events_drawing world_waiting).
  reflexivity.
Defined.

(** Promise 4 is fulfilled after a draw, a foreign completion and a
    resize that installed a canvas at once. *)
Lemma awaited_completion_lands_witness :
  In 4%nat (registered world_waiting) /\
  forallb (fun ev => negb (fulfils 4 ev)) events_before_landing = true /\
  _charAtlas
    (this (run acquire_now 1 (events_before_landing ++ [EvFulfil 4 12])
               world_waiting))
    = Some (ImageBitmap 12).
Proof.
  assert (Hin : In 4%nat (registered world_waiting)) by (cbn; tauto).
  split; [exact Hin |]. split; [reflexivity |].
  apply (awaited_completion_lands acquire_now 1 4%nat 12%nat
           events_before_landing world_waiting Hin).
  reflexivity.
Defined.

Lemma synchronous_atlas_always_held_witness :
  (forall earlier terminal cs w h,
      is_immediate (acquire_now earlier terminal cs w h) = true) /\
  requests_atlas (EvThemeChanged terminal0 theme_light) = true /\
  let wd' := run acquire_now 1
               (EvThemeChanged terminal0 theme_light :: events_drawing)
               world0 in
  _charAtlas (this wd') <> None /\
  completion (drawChar 1 window0 terminal0 "A" 65 1 0 0 5 false wd')
    = Normal tt.
Proof.
  assert (Hsync : forall earlier terminal cs w h,
             is_immediate (acquire_now earlier terminal cs w h) = true)
    by reflexivity.
  split; [exact Hsync |]. split; [reflexivity |].
  apply (synchronous_atlas_always_held acquire_now 1
           (EvThemeChanged terminal0 theme_light) events_drawing
           window0 terminal0 "A" 65 1 0 0 5 false world0 Hsync).
  reflexivity.
Defined.

Lemma glyph_stays_in_line_witness :
  metrics_ok window0 terminal0 /\
  Forall resize_ok events_mixed /\
  glyph_in_line
    (this (run acquire_pending 1 events_mixed
               (world (resize acquire_pending window0 terminal0 560 360 true
                              world0)))).
Proof.
  assert (Hm : metrics_ok window0 terminal0).
  { repeat split; apply Qle_bool_imp_le; vm_compute; reflexivity. }
  assert (Hevs : Forall resize_ok events_mixed).
  { unfold events_mixed.
    repeat constructor; apply Qle_bool_imp_le; vm_compute; reflexivity. }
  split; [exact Hm |]. split; [exact Hevs |].
  exact (glyph_stays_in_line acquire_pending 1 window0 terminal0 560 360
           true events_mixed world0 Hm Hevs).
Defined.

Lemma fillCharTrueColor_aligned_when_plain_witness :
  Qeq_bool (lineHeight (options terminal_plain)) 1 = true /\
  let wd' := world (resize acquire_pending window0 terminal_plain 560 360
                           true world0) in
  exists px py w h,
    In (Rect px py w h)
       (calls (fillCharTrueColor window0 terminal_plain (mkCharData "A" 1)
                                 3 2 wd')) /\
    In (FillText "A" px py)
       (calls (fillCharTrueColor window0 terminal_plain (mkCharData "A" 1)
                                 3 2 wd')).
Proof.
  split; [reflexivity |].
  apply (fillCharTrueColor_aligned_when_plain acquire_pending window0
           terminal_plain 560 360 true window0 terminal_plain
           (mkCharData "A" 1) 3 2 world0).
  reflexivity.
Defined.

Lemma drawChar_paints_within_witness :
  glyph_in_line (this world_held) /\
  0 <= scaledCharWidth (this world_held) /\
  1 <= 2 /\
  Forall (region_in_cells (this world_held) 3 2 2)
    (painted None [] []
       (calls (drawChar 1 window0 terminal0 "A" 65 2 3 2 200 false
                        world_held))).
Proof.
  assert (Hg : glyph_in_line (this world_held)).
  { unfold glyph_in_line. cbn. lia. }
  assert (Hw : 0 <= scaledCharWidth (this world_held)) by (cbn; lia).
  assert (H1 : 1 <= 2) by lia.
  split; [exact Hg |]. split; [exact Hw |]. split; [exact H1 |].
  exact (drawChar_paints_within 1 window0 terminal0 "A" 65 2 3 2 200 false
           world_held None [] [] Hg Hw H1).
Defined.

(** 'A' in colour 5 and 'B' in colour 6 on a layer with cells of 14 by 30
    pixels and an atlas spacing of 1. *)
Lemma atlas_sources_disjoint_witness :
  0 <= 1 /\
  0 <= scaledCharWidth (this world_held) /\
  0 <= scaledCharHeight (this world_held) /\
  In (DrawImage (Some (ImageBitmap 7)) 975 217 14 30 0 8 14 30)
     (calls (drawChar 1 window0 terminal0 "A" 65 1 0 0 5 false world_held)) /\
  In (DrawImage (Some (ImageBitmap 7)) 990 248 14 30 14 8 14 30)
     (calls (drawChar 1 window0 terminal0 "B" 66 1 1 0 6 false world_held)) /\
  (65 < 66 -> 975 + 14 <= 990) /\
  (colorIndex 5 false < colorIndex 6 false -> 217 + 30 <= 248).
Proof.
  assert (H1 : In (DrawImage (Some (ImageBitmap 7)) 975 217 14 30 0 8 14 30)
     (calls (drawChar 1 window0 terminal0 "A" 65 1 0 0 5 false world_held)))
    by (left; reflexivity).
  assert (H2 : In (DrawImage (Some (ImageBitmap 7)) 990 248 14 30 14 8 14 30)
     (calls (drawChar 1 window0 terminal0 "B" 66 1 1 0 6 false world_held)))
    by (left; reflexivity).
  assert (Hs : 0 <= 1) by lia.
  assert (Hw : 0 <= scaledCharWidth (this world_held)) by (cbn; lia).
  assert (Hh : 0 <= scaledCharHeight (this world_held)) by (cbn; lia).
  split; [exact Hs |]. split; [exact Hw |]. split; [exact Hh |].
  split; [exact H1 |]. split; [exact H2 |].
  exact (atlas_sources_disjoint 1 window0 terminal0 "A" "B" 65 66 1 1
           0 0 1 0 5 6 false false world_held
           (Some (ImageBitmap 7)) 975 217 14 30 0 8 14 30
           (Some (ImageBitmap 7)) 990 248 14 30 14 8 14 30
           Hs Hw Hh H1 H2).
Defined.

Lemma undefined_fill_style_below_sentinel_witness :
  List.length (ansi (colors (this world_held))) = 256%nat /\
  (In (SetFillStyle None)
      (calls (drawChar 1 window0 terminal0 "A" 65 1 0 0 (-7) false
                       world_held))
   <-> -7 < INVERTED_DEFAULT_COLOR).
Proof.
  split; [reflexivity |].
  apply (undefined_fill_style_below_sentinel 1 window0 terminal0 "A" 65 1
           0 0 (-7) false world_held).
  reflexivity.
Defined.
